(** * altares-mayand: the Redis cache-aside helpers, cache keys and pricing rules

    A shallow embedding of [src/lib/redis/client.ts], [src/lib/redis/cache-keys.ts],
    the catalog reads of the altar-catalog feature and the CHECK constraints of
    [supabase/migrations/20250121000000_initial_schema.sql], together with the
    price resolver, discount engine and quote calculator of the specification.

    Conventions.
    - An awaited call either yields a value or throws: [outcome].
    - A TypeScript value of type [T | null] is a [nullable T].
    - Money is counted in centavos, lengths in hundredths of a centimetre and
      percentages in hundredths of a percent (the DECIMAL(_, 2) columns of the
      schema), all as [Z].
    - Redis and the data store are external: they are an abstract [World]
      threaded through every call, and each call is recorded in a trace. *)

From Stdlib Require Import ZArith List Bool Lia String Ascii Permutation.
From stdpp Require Import base strings gmap list sorting pretty.

Local Open Scope string_scope.
Local Open Scope Z_scope.
Local Open Scope list_scope.

(* ===================================================================== *)
(** * Part I: definitions                                                 *)
(* ===================================================================== *)

(** ** Awaited calls: results, state and trace *)

Inductive outcome (E A : Type) : Type :=
| Ok (a : A)
| Throw (e : E).
Arguments Ok {E A} a.
Arguments Throw {E A} e.

Inductive nullable (T : Type) : Type :=
| Null
| NonNull (t : T).
Arguments Null {T}.
Arguments NonNull {T} t.

(** The calls that leave the process: the four Redis commands the helpers use
    and the invocation of the caller's fetcher. *)
Inductive event (Value : Type) : Type :=
| EvGet (key : string)
| EvSetex (key : string) (ttl : Z) (data : nullable Value)
| EvKeys (pattern : string)
| EvDel (keys : list string)
| EvFetch.
Arguments EvGet {Value} key.
Arguments EvSetex {Value} key ttl data.
Arguments EvKeys {Value} pattern.
Arguments EvDel {Value} keys.
Arguments EvFetch {Value}.

Definition is_fetch {Value : Type} (e : event Value) : bool :=
  match e with EvFetch => true | _ => false end.

Definition is_write {Value : Type} (e : event Value) : bool :=
  match e with EvSetex _ _ _ => true | EvDel _ => true | _ => false end.

(** How often the fetcher ran, and how many cache writes were issued. *)
Definition fetch_count {Value : Type} (t : list (event Value)) : nat :=
  length (filter (fun e => is_fetch e = true) t).

Definition write_count {Value : Type} (t : list (event Value)) : nat :=
  length (filter (fun e => is_write e = true) t).

Section Effects.
Context {World Value Exn : Type}.

(** An async function: it runs in a world, yields or throws, and leaves the
    world and the trace of the calls it made. *)
Definition M (A : Type) : Type :=
  World -> outcome Exn A * World * list (event Value).

Definition ret {A : Type} (a : A) : M A := fun w => (Ok a, w, []).

Definition bind {A B : Type} (m : M A) (k : A -> M B) : M B :=
  fun w =>
    match m w with
    | (Ok a, w1, t1) =>
        match k a w1 with (r, w2, t2) => (r, w2, t1 ++ t2) end
    | (Throw e, w1, t1) => (Throw e, w1, t1)
    end.

(** [try { m } catch (e) { h e }] *)
Definition try_catch {A : Type} (m : M A) (h : Exn -> M A) : M A :=
  fun w =>
    match m w with
    | (Ok a, w1, t1) => (Ok a, w1, t1)
    | (Throw e, w1, t1) =>
        match h e w1 with (r, w2, t2) => (r, w2, t1 ++ t2) end
    end.

(** One call to the outside, recorded by [ev]. *)
Definition call {A : Type} (ev : event Value)
    (f : World -> outcome Exn A * World) : M A :=
  fun w => match f w with (r, w1) => (r, w1, [ev]) end.

(** The part of the @upstash/redis client the helpers use. *)
Record RedisClient : Type := {
  redis_get : string -> World -> outcome Exn (nullable Value) * World;
  redis_setex : string -> Z -> nullable Value -> World -> outcome Exn unit * World;
  redis_keys : string -> World -> outcome Exn (list string) * World;
  redis_del : list string -> World -> outcome Exn Z * World
}.

(** [fetcher: () => Promise<T>] *)
Definition Fetcher : Type := World -> outcome Exn (nullable Value) * World.

End Effects.

Arguments M : clear implicits.
Arguments RedisClient : clear implicits.
Arguments Fetcher : clear implicits.

Declare Scope async_scope.
Delimit Scope async_scope with async.
Notation "x <- m ;; k" := (bind m (fun x => k))
  (at level 20, m at level 99, k at level 200, only parsing)
  : async_scope.

(** [ttl: number = 3600] *)
Definition default_ttl : Z := 3600.

(** ** [src/lib/redis/client.ts], lines 1-77 *)
Module ClientA.
Section Client.
Context {World Value Exn : Type}.
Variable redis : RedisClient World Value Exn.
Local Open Scope async_scope.

Definition getCached (key : string) (fetcher : Fetcher World Value Exn)
    (ttl : option Z) : M World Value Exn (nullable Value) :=
  let ttl := default default_ttl ttl in
  try_catch
    (cached <- call (EvGet key) (redis_get redis key) ;;
     match cached with
     | NonNull _ => ret cached
     | Null =>
         data <- call EvFetch fetcher ;;
         stored <- try_catch
                (call (EvSetex key ttl data) (redis_setex redis key ttl data))
                (fun cacheError => ret tt) ;;
         ret data
     end)
    (fun error => call EvFetch fetcher).

Definition invalidateCache (pattern : string) : M World Value Exn unit :=
  try_catch
    (keys <- call (EvKeys pattern) (redis_keys redis pattern) ;;
     if (0 <? length keys)%nat
     then removed <- call (EvDel keys) (redis_del redis keys) ;; ret tt
     else ret tt)
    (fun error => ret tt).

Definition setCache (key : string) (value : nullable Value) (ttl : option Z)
    : M World Value Exn unit :=
  let ttl := default default_ttl ttl in
  try_catch
    (call (EvSetex key ttl value) (redis_setex redis key ttl value))
    (fun error => ret tt).

Definition deleteCache (key : string) : M World Value Exn unit :=
  try_catch
    (removed <- call (EvDel [key]) (redis_del redis [key]) ;; ret tt)
    (fun error => ret tt).

End Client.
End ClientA.

(** ** [src/lib/redis/client.ts], lines 79-146 *)
Module ClientB.
Section Client.
Context {World Value Exn : Type}.
Variable redis : RedisClient World Value Exn.
Local Open Scope async_scope.

Definition getCached (key : string) (fetcher : Fetcher World Value Exn)
    (ttl : option Z) : M World Value Exn (nullable Value) :=
  let ttl := default default_ttl ttl in
  try_catch
    (cached <- call (EvGet key) (redis_get redis key) ;;
     match cached with
     | NonNull _ => ret cached
     | Null =>
         data <- call EvFetch fetcher ;;
         stored <- call (EvSetex key ttl data) (redis_setex redis key ttl data) ;;
         ret data
     end)
    (fun error => call EvFetch fetcher).

Definition invalidateCache (pattern : string) : M World Value Exn unit :=
  try_catch
    (keys <- call (EvKeys pattern) (redis_keys redis pattern) ;;
     if (0 <? length keys)%nat
     then removed <- call (EvDel keys) (redis_del redis keys) ;; ret tt
     else ret tt)
    (fun error => ret tt).

Definition setCache (key : string) (value : nullable Value) (ttl : option Z)
    : M World Value Exn unit :=
  let ttl := default default_ttl ttl in
  try_catch
    (call (EvSetex key ttl value) (redis_setex redis key ttl value))
    (fun error => ret tt).

Definition deleteCache (key : string) : M World Value Exn unit :=
  try_catch
    (removed <- call (EvDel [key]) (redis_del redis [key]) ;; ret tt)
    (fun error => ret tt).

End Client.
End ClientB.

(** ** [src/lib/redis/cache-keys.ts] *)

Module CACHE_KEYS.
Definition ALTARES_ALL : string := "altares:all".
Definition ALTARES_BY_TYPE (tipo : string) : string := "altares:tipo:" +:+ tipo.
Definition ALTAR_DETAIL (id : string) : string := "altar:" +:+ id.
Definition ALTAR_BY_SLUG (slug : string) : string := "altar:slug:" +:+ slug.
Definition CONFIGURACIONES_ALL : string := "configuraciones:all".
Definition CONFIGURACIONES_BY_TYPE (tipo : string) : string :=
  "configuraciones:tipo:" +:+ tipo.
Definition GROSOR_OPTIONS : string := "configuraciones:grosor".
Definition ALTURA_OPTIONS : string := "configuraciones:altura".
Definition ANCHURA_OPTIONS : string := "configuraciones:anchura".
Definition REGLAS_PRECIO : string := "reglas_precio:all".
Definition PRECIO_CALCULATION (hash : string) : string := "precio:calc:" +:+ hash.
Definition ITEMS_EXTRA : string := "items_extra:all".
Definition ITEMS_EXTRA_BY_TYPE (tipo : string) : string :=
  "items_extra:tipo:" +:+ tipo.
Definition REGLAS_DESCUENTO : string := "reglas_descuento:all".

Module PATTERNS.
Definition ALL_ALTARES : string := "altares:*".
Definition ALL_CONFIGURACIONES : string := "configuraciones:*".
Definition ALL_PRICING : string := "precio:*".
Definition ALL_EXTRAS : string := "items_extra:*".
(** The object's values, in declaration order. *)
Definition values : list string :=
  [ALL_ALTARES; ALL_CONFIGURACIONES; ALL_PRICING; ALL_EXTRAS].
End PATTERNS.
End CACHE_KEYS.

(** Time-to-live values in seconds. *)
Module CACHE_TTL.
Definition LONG : Z := 3600.
Definition MEDIUM : Z := 1800.
Definition SHORT : Z := 300.
Definition VERY_SHORT : Z := 60.
Definition CATALOG : Z := 3600.
Definition CONFIG : Z := 3600.
Definition PRICING : Z := 1800.
Definition CALCULATION : Z := 600.
Definition EXTRAS : Z := 3600.
Definition DISCOUNTS : Z := 3600.
End CACHE_TTL.

(** [Array<{ itemId: string; cantidad: number }>]; quantities are counts, so
    [cantidad] ranges over the integers and prints in decimal. *)
Record Extra : Type := { itemId : string; cantidad : Z }.

Record PriceCalcParams : Type := {
  grosorId : string;
  alturaId : string;
  anchuraId : string;
  pintado : bool;
  extras : option (list Extra)
}.

(** [Array.prototype.sort] with a comparator is a stable sort: of two elements
    the comparator does not separate, the one that came first stays first.
    Insertion from the right gives exactly that order. *)
Section Sort.
Context {A : Type}.
Variable compareFn : A -> A -> Z.

Fixpoint sort_insert (x : A) (l : list A) : list A :=
  match l with
  | [] => [x]
  | y :: l' =>
      if compareFn x y <=? 0 then x :: y :: l' else y :: sort_insert x l'
  end.

Definition array_sort (l : list A) : list A := foldr sort_insert [] l.

End Sort.

(** [String.prototype.localeCompare] is the host's collation and is taken as a
    parameter; [Array.prototype.join] is [String.concat]. *)
Section PriceCalcHash.
Variable localeCompare : string -> string -> Z.

Definition extra_entry (e : Extra) : string :=
  itemId e +:+ ":" +:+ pretty (cantidad e).

Definition generatePriceCalcHash (params : PriceCalcParams) : string :=
  let extrasStr :=
    match extras params with
    | Some es =>
        String.concat ","
          (map extra_entry
             (array_sort (fun a b => localeCompare (itemId a) (itemId b)) es))
    | None => ""
    end in
  grosorId params +:+ "-" +:+ alturaId params +:+ "-" +:+ anchuraId params
    +:+ "-" +:+ (if pintado params then "1" else "0") +:+ "-" +:+ extrasStr.

End PriceCalcHash.

(** Comparison of strings by character code, one collation a host may have;
    used to run [generatePriceCalcHash] on concrete inputs. *)
Definition codeCompare (a b : string) : Z :=
  match String.compare a b with
  | Eq => 0
  | Lt => -1
  | Gt => 1
  end.

(** ** The catalog reads of the altar-catalog feature

    Each read goes through the imported [getCached] with [CACHE_TTL.CATALOG];
    the Supabase query with its schema validation is the fetcher. *)
Section CatalogApi.
Context {World Value Exn : Type}.
Variable getCached :
  string -> Fetcher World Value Exn -> option Z ->
  M World Value Exn (nullable Value).
Variable selectAltares : Fetcher World Value Exn.
Variable selectAltaresByType : string -> Fetcher World Value Exn.
Variable selectAltarById : string -> Fetcher World Value Exn.
Variable selectAltarBySlug : string -> Fetcher World Value Exn.

Definition getAltares : M World Value Exn (nullable Value) :=
  getCached CACHE_KEYS.ALTARES_ALL selectAltares (Some CACHE_TTL.CATALOG).

Definition getAltaresByType (tipo : string) : M World Value Exn (nullable Value) :=
  getCached (CACHE_KEYS.ALTARES_BY_TYPE tipo) (selectAltaresByType tipo)
    (Some CACHE_TTL.CATALOG).

Definition getAltarById (id : string) : M World Value Exn (nullable Value) :=
  getCached (CACHE_KEYS.ALTAR_DETAIL id) (selectAltarById id)
    (Some CACHE_TTL.CATALOG).

Definition getAltarBySlug (slug : string) : M World Value Exn (nullable Value) :=
  getCached (CACHE_KEYS.ALTAR_BY_SLUG slug) (selectAltarBySlug slug)
    (Some CACHE_TTL.CATALOG).

End CatalogApi.

(** ** Two Redis servers to run the helpers against

    [mem_redis] is a reachable server holding a finite map; [down_redis] refuses
    every command. Expiry needs a clock and is left out: an entry stays until
    it is overwritten or deleted. *)

(** Redis glob patterns, restricted to literal characters and [*], which is
    all the patterns of [CACHE_KEYS.PATTERNS] use. *)
Fixpoint glob (pattern s : string) : bool :=
  match pattern with
  | EmptyString => match s with EmptyString => true | _ => false end
  | String c p' =>
      if Ascii.eqb c "*"%char then
        (fix star (s : string) : bool :=
           glob p' s ||
           match s with
           | EmptyString => false
           | String _ s' => star s'
           end) s
      else
        match s with
        | EmptyString => false
        | String d s' => Ascii.eqb c d && glob p' s'
        end
  end.

Record Mem (Value : Type) : Type := {
  store : gmap string (nullable Value);
  fetched : nat
}.
Arguments store {Value} m.
Arguments fetched {Value} m.
Arguments Build_Mem {Value} store fetched.

Section Servers.
Context {Value : Type}.

Definition with_store (w : Mem Value) (s : gmap string (nullable Value)) : Mem Value :=
  {| store := s; fetched := fetched w |}.

Definition mem_get (key : string) (w : Mem Value)
    : outcome string (nullable Value) * Mem Value :=
  (Ok (default Null (store w !! key)), w).

Definition mem_setex (key : string) (ttl : Z) (data : nullable Value) (w : Mem Value)
    : outcome string unit * Mem Value :=
  (Ok tt, with_store w (<[key := data]> (store w))).

Definition mem_keys (pattern : string) (w : Mem Value)
    : outcome string (list string) * Mem Value :=
  (Ok (filter (fun k => glob pattern k = true) (elements (dom (store w)))), w).

Definition mem_del (keys : list string) (w : Mem Value)
    : outcome string Z * Mem Value :=
  (Ok (Z.of_nat (length (filter (fun k => is_Some (store w !! k)) keys))),
   with_store w (foldr delete (store w) keys)).

Definition mem_redis : RedisClient (Mem Value) Value string :=
  {| redis_get := mem_get; redis_setex := mem_setex;
     redis_keys := mem_keys; redis_del := mem_del |}.

Definition refused {A : Type} (w : Mem Value) : outcome string A * Mem Value :=
  (Throw "ECONNREFUSED", w).

Definition down_redis : RedisClient (Mem Value) Value string :=
  {| redis_get := fun _ => refused; redis_setex := fun _ _ _ => refused;
     redis_keys := fun _ => refused; redis_del := fun _ => refused |}.

(** A fetcher that counts its invocations and always yields [v]. *)
Definition steady_fetcher (v : nullable Value) : Fetcher (Mem Value) Value string :=
  fun w => (Ok v, {| store := store w; fetched := S (fetched w) |}).

(** A fetcher whose first invocation throws and whose later ones yield [v]. *)
Definition flaky_fetcher (v : nullable Value) : Fetcher (Mem Value) Value string :=
  fun w =>
    (match fetched w with
     | O => Throw "Failed to fetch altares"
     | S _ => Ok v
     end,
     {| store := store w; fetched := S (fetched w) |}).

(** A fetcher that throws on every invocation. *)
Definition failing_fetcher : Fetcher (Mem Value) Value string :=
  fun w => (Throw "Failed to fetch altares",
            {| store := store w; fetched := S (fetched w) |}).

End Servers.

(** ** The pricing core of the specification

    The repository holds the tables and the seed rows of the pricing rules and
    discount tiers, but no function that resolves a price, applies a discount
    or computes a quote. Those three are modelled from the specification, over
    the rows of the schema. *)

Inductive Result (E A : Type) : Type :=
| Success (a : A)
| Failure (e : E).
Arguments Success {E A} a.
Arguments Failure {E A} e.

Inductive OptionKind : Type := Thickness | Height | Width.

Record ConfigurationOption : Type := {
  optionId : string;
  kind : OptionKind;
  value : Z;
  unit_ : string;
  available : bool;
  displayOrder : Z
}.

(** A row of [reglas_precio]: a priced band, bounds inclusive. *)
Record PricingRule : Type := {
  ruleId : string;
  thicknessRef : string;
  heightMin : Z;
  heightMax : Z;
  widthMin : Z;
  widthMax : Z;
  basePrice : Z;
  paintedPrice : Z;
  ruleActive : bool
}.

(** A row of [reglas_descuento]. *)
Record DiscountTier : Type := {
  minQuantity : Z;
  percentage : Z;
  tierActive : bool
}.

(** A row of [items_extra]. *)
Record ExtraItem : Type := {
  price : Z;
  category : string;
  extraAvailable : bool
}.

Inductive QuoteError : Type :=
| NoRuleMatchedError (thickness : string) (height width : Z)
| InvalidConfigurationError
| RepositoryUnavailable.

(** The CHECK constraints of [reglas_precio], [reglas_descuento] and
    [items_extra]. *)
Definition rule_checks (r : PricingRule) : bool :=
  (heightMin r <=? heightMax r) && (widthMin r <=? widthMax r)
  && (0 <? basePrice r) && (0 <? paintedPrice r).

Definition tier_checks (t : DiscountTier) : bool :=
  (0 <? minQuantity t) && (0 <=? percentage t) && (percentage t <=? 10000).

Definition extra_checks (x : ExtraItem) : bool := 0 <? price x.

Definition rule_matches (thickness : string) (height width : Z)
    (r : PricingRule) : bool :=
  ruleActive r && String.eqb (thicknessRef r) thickness
  && (heightMin r <=? height) && (height <=? heightMax r)
  && (widthMin r <=? width) && (width <=? widthMax r).

Definition band_area (r : PricingRule) : Z :=
  (heightMax r - heightMin r) * (widthMax r - widthMin r).

(** [r1] is chosen over [r2]: a smaller band, or the same area and an
    identifier that is not lexicographically greater. *)
Definition narrower (r1 r2 : PricingRule) : bool :=
  (band_area r1 <? band_area r2)
  || ((band_area r1 =? band_area r2) && String.leb (ruleId r1) (ruleId r2)).

Fixpoint narrowest (l : list PricingRule) : option PricingRule :=
  match l with
  | [] => None
  | r :: l' =>
      match narrowest l' with
      | None => Some r
      | Some best => Some (if narrower r best then r else best)
      end
  end.

(** Modelled from the spec: the Price Resolver [resolve] of section 4.3, which
    is missing from the sources. It filters the rules to the active ones of the
    requested thickness whose bands contain the point, fails when none matches,
    and among several takes the narrowest band, then the smallest identifier. *)
Definition resolve (rules : list PricingRule) (thickness : string)
    (height width : Z) : Result QuoteError PricingRule :=
  match narrowest (List.filter (rule_matches thickness height width) rules) with
  | Some r => Success r
  | None => Failure (NoRuleMatchedError thickness height width)
  end.

(** Rounding of the quotient [num / den] to the nearest integer, halves up:
    the amount in centavos nearest to an exact product. *)
Definition round_div (num den : Z) : Z := (2 * num + den) / (2 * den).

Definition tier_qualifies (itemCount : Z) (t : DiscountTier) : bool :=
  tierActive t && (minQuantity t <=? itemCount).

Fixpoint highest_tier (l : list DiscountTier) : option DiscountTier :=
  match l with
  | [] => None
  | t :: l' =>
      match highest_tier l' with
      | None => Some t
      | Some best =>
          Some (if minQuantity best <=? minQuantity t then t else best)
      end
  end.

Record Discount : Type := {
  tier : option DiscountTier;
  discountOf : Z
}.

(** Modelled from the spec: the Discount Engine [applyDiscount] of section 4.4,
    which is missing from the sources. Among the active tiers whose threshold
    the item count reaches it takes the one with the largest threshold, and the
    amount is the rounded percentage of the subtotal; with no such tier the
    amount is 0. *)
Definition applyDiscount (tiers : list DiscountTier) (itemCount subtotal : Z)
    : Discount :=
  match highest_tier (List.filter (tier_qualifies itemCount) tiers) with
  | Some t =>
      {| tier := Some t; discountOf := round_div (subtotal * percentage t) 10000 |}
  | None => {| tier := None; discountOf := 0 |}
  end.

Record Configuration : Type := {
  thicknessOption : ConfigurationOption;
  heightOption : ConfigurationOption;
  widthOption : ConfigurationOption
}.

Record Quote : Type := {
  unitPrice : Z;
  extrasTotal : Z;
  lineSubtotal : Z;
  discountAmount : Z;
  total : Z;
  matchedRuleId : option string
}.

Definition sum_prices (xs : list ExtraItem) : Z :=
  foldr (fun x acc => price x + acc) 0 xs.

(** Modelled from the spec: the Quote Calculator [computeQuote] of section 4.5,
    which is missing from the sources. The rule and tier snapshots come from
    the Rule Repository and the order-level item count from the caller. *)
Definition computeQuote (rules : list PricingRule) (tiers : list DiscountTier)
    (config : Configuration) (paint : bool) (quantity : Z)
    (extras : list ExtraItem) (orderItemCount : Z) : Result QuoteError Quote :=
  if negb ((1 <=? quantity)
           && available (thicknessOption config)
           && available (heightOption config)
           && available (widthOption config))
  then Failure InvalidConfigurationError
  else
    match resolve rules (optionId (thicknessOption config))
            (value (heightOption config)) (value (widthOption config)) with
    | Failure e => Failure e
    | Success r =>
        let unitPrice := if paint then paintedPrice r else basePrice r in
        let extrasTotal := sum_prices extras in
        let lineSubtotal := (unitPrice + extrasTotal) * quantity in
        let d := applyDiscount tiers orderItemCount lineSubtotal in
        Success {| unitPrice := unitPrice;
                   extrasTotal := extrasTotal;
                   lineSubtotal := lineSubtotal;
                   discountAmount := discountOf d;
                   total := lineSubtotal - discountOf d;
                   matchedRuleId := Some (ruleId r) |}
    end.

(** ** The pricing columns of [pedidos]

    [subtotal] and [total] are NOT NULL; [descuento] has DEFAULT 0 but no
    NOT NULL, so a row may hold NULL there ([None]). *)
Record Pedido : Type := {
  pedido_subtotal : Z;
  pedido_descuento : option Z;
  pedido_total : Z
}.

(** SQL's three truth values: [None] is NULL (unknown). *)
Definition sql_and (a b : option bool) : option bool :=
  match a, b with
  | Some false, _ => Some false
  | _, Some false => Some false
  | Some true, Some true => Some true
  | _, _ => None
  end.

(** A comparison with a nullable operand is NULL when the operand is. *)
Definition sql_test (f : Z -> bool) (x : option Z) : option bool :=
  match x with
  | Some v => Some (f v)
  | None => None
  end.

(** [CHECK (subtotal >= 0 AND total >= 0 AND descuento >= 0)] *)
Definition check_positive_amounts (p : Pedido) : option bool :=
  sql_and
    (sql_and (Some (0 <=? pedido_subtotal p)) (Some (0 <=? pedido_total p)))
    (sql_test (fun d => 0 <=? d) (pedido_descuento p)).

(** [CHECK (total = subtotal - descuento)] *)
Definition check_total_calculation (p : Pedido) : option bool :=
  sql_test (fun d => pedido_total p =? pedido_subtotal p - d) (pedido_descuento p).

(** A CHECK constraint is violated only by FALSE: TRUE and NULL pass. *)
Definition check_passes (c : option bool) : bool :=
  match c with
  | Some false => false
  | _ => true
  end.

(** A row the table accepts. *)
Definition pedido_accepted (p : Pedido) : bool :=
  check_passes (check_positive_amounts p) && check_passes (check_total_calculation p).

(** The invariant the constraints are written for: the discount is known and
    [total = subtotal - descuento], with a total that is not negative. *)
Definition pedido_total_invariant (p : Pedido) : Prop :=
  exists d, pedido_descuento p = Some d
            /\ pedido_total p = pedido_subtotal p - d /\ 0 <= pedido_total p.

(** ** Seed rows ([20250121000002_seed_data.sql]) *)

Definition seed_tiers : list DiscountTier :=
  [ {| minQuantity := 5; percentage := 1000; tierActive := true |};
    {| minQuantity := 10; percentage := 1500; tierActive := true |} ].

(** The three bands of the 3 mm thickness; identifiers stand for the
    generated UUIDs. *)
Definition seed_rules_3mm : list PricingRule :=
  [ {| ruleId := "rule-3mm-small"; thicknessRef := "grosor-3mm";
       heightMin := 3000; heightMax := 5000; widthMin := 2000; widthMax := 3500;
       basePrice := 25000; paintedPrice := 35000; ruleActive := true |};
    {| ruleId := "rule-3mm-medium"; thicknessRef := "grosor-3mm";
       heightMin := 3000; heightMax := 5000; widthMin := 4000; widthMax := 5000;
       basePrice := 30000; paintedPrice := 42000; ruleActive := true |};
    {| ruleId := "rule-3mm-large"; thicknessRef := "grosor-3mm";
       heightMin := 6000; heightMax := 8000; widthMin := 2000; widthMax := 5000;
       basePrice := 40000; paintedPrice := 56000; ruleActive := true |} ].

Definition option_of (k : OptionKind) (id : string) (v : Z) (u : string)
    : ConfigurationOption :=
  {| optionId := id; kind := k; value := v; unit_ := u;
     available := true; displayOrder := 0 |}.

Definition config_3mm_40_25 : Configuration :=
  {| thicknessOption := option_of Thickness "grosor-3mm" 300 "mm";
     heightOption := option_of Height "altura-40" 4000 "cm";
     widthOption := option_of Width "anchura-25" 2500 "cm" |}.

(** ** Inputs and trace properties used in the statements *)

(** A price-calculation request with the given extras. *)
Definition calc_params (es : option (list Extra)) : PriceCalcParams :=
  {| grosorId := "g3"; alturaId := "a40"; anchuraId := "w25"; pintado := true;
     extras := es |}.

(** Every write of the trace carries the time-to-live [ttl]. *)
Definition writes_with_ttl {Value : Type} (ttl : Z) (t : list (event Value)) : Prop :=
  Forall (fun e => match e with EvSetex _ ttl' _ => ttl' = ttl | _ => True end) t.

(** A cache that holds the pricing rules, the discount rules and one computed
    quote. *)
Definition priced_cache : Mem string :=
  {| store :=
       <[CACHE_KEYS.REGLAS_PRECIO := NonNull "rules"]>
         (<[CACHE_KEYS.REGLAS_DESCUENTO := NonNull "tiers"]>
            (<[CACHE_KEYS.PRECIO_CALCULATION "g3-a40-w25-1-" := NonNull "quote"]> ∅));
     fetched := 0 |}.

(** Two overlapping bands over the small band of the seed data: the narrower
    one wins, and of two bands of one area the smaller identifier wins. *)
Definition overlapping_rules : list PricingRule :=
  [ {| ruleId := "rule-b"; thicknessRef := "grosor-3mm";
       heightMin := 3000; heightMax := 5000; widthMin := 2000; widthMax := 3500;
       basePrice := 25000; paintedPrice := 35000; ruleActive := true |};
    {| ruleId := "rule-c"; thicknessRef := "grosor-3mm";
       heightMin := 3500; heightMax := 4500; widthMin := 2000; widthMax := 3000;
       basePrice := 26000; paintedPrice := 36000; ruleActive := true |};
    {| ruleId := "rule-a"; thicknessRef := "grosor-3mm";
       heightMin := 3500; heightMax := 4500; widthMin := 2500; widthMax := 3500;
       basePrice := 27000; paintedPrice := 37000; ruleActive := true |} ].

(** ** The invalidation step of the specification *)






Section Invalidate.
Context {World Value Exn : Type}.
Variable redis : RedisClient World Value Exn.
Local Open Scope async_scope.



End Invalidate.

(** ** Further servers and trace properties *)

(** A server that answers reads and refuses every write. *)
Definition readonly_redis {Value : Type} : RedisClient (Mem Value) Value string :=
  {| redis_get := mem_get; redis_setex := fun _ _ _ => refused;
     redis_keys := mem_keys; redis_del := fun _ => refused |}.

(** A cache whose entries expire, read through the Upstash client. An entry
    holds what a lookup yields for it and the instant it expires at. *)
Record Timed (Value : Type) : Type := {
  entries : gmap string (nullable Value * Z);
  clock : Z
}.
Arguments entries {Value} t.
Arguments clock {Value} t.
Arguments Build_Timed {Value} entries clock.

Section Upstash.
Context {Value : Type}.
(** The client serialises the datum of a [setex] and parses the reply to a
    [get]: [readBack data] is what a lookup yields for an entry written from
    [data]. A text is sent as it is and parsed on the way back, so the text
    [null] reads back as null. *)
Variable readBack : nullable Value -> nullable Value.

(** The datum under [key], when there is one that has not expired. *)
Definition live (w : Timed Value) (key : string) : option (nullable Value) :=
  match entries w !! key with
  | Some (data, expiry) => if clock w <? expiry then Some data else None
  | None => None
  end.

Definition upstash_get (key : string) (w : Timed Value)
    : outcome string (nullable Value) * Timed Value :=
  (Ok (default Null (live w key)), w).

(** Redis refuses a [SETEX] whose time-to-live is not positive. *)
Definition upstash_setex (key : string) (ttl : Z) (data : nullable Value)
    (w : Timed Value) : outcome string unit * Timed Value :=
  if 0 <? ttl then
    (Ok tt, {| entries := <[key := (readBack data, clock w + ttl)]> (entries w);
               clock := clock w |})
  else (Throw "ERR invalid expire time in 'setex' command", w).

Definition upstash_keys (pattern : string) (w : Timed Value)
    : outcome string (list string) * Timed Value :=
  (Ok (filter (fun k => glob pattern k = true)
         (filter (fun k => is_Some (live w k)) (elements (dom (entries w))))), w).

Definition upstash_del (keys : list string) (w : Timed Value)
    : outcome string Z * Timed Value :=
  (Ok (Z.of_nat (length (filter (fun k => is_Some (live w k)) keys))),
   {| entries := foldr delete (entries w) keys; clock := clock w |}).

Definition upstash_redis : RedisClient (Timed Value) Value string :=
  {| redis_get := upstash_get; redis_setex := upstash_setex;
     redis_keys := upstash_keys; redis_del := upstash_del |}.

End Upstash.

(** The cache [seconds] later. *)
Definition elapse {Value : Type} (seconds : Z) (w : Timed Value) : Timed Value :=
  {| entries := entries w; clock := clock w + seconds |}.

(** A read-back over texts that keeps every text but [null]. *)
Definition readBack_text (data : nullable string) : nullable string :=
  match data with
  | NonNull text => if String.eqb text "null" then Null else NonNull text
  | Null => Null
  end.

(** The run starts with the lookup of [key] followed by a fetch. *)
Definition fetches_after_lookup {Value : Type} (key : string)
    (t : list (event Value)) : Prop :=
  exists rest, t = EvGet key :: EvFetch :: rest.

(** Every call of the trace is a fetch or a [get] or [setex] of [key]: no
    other key is touched, and no key is listed or deleted. *)
Definition touches_only {Value : Type} (key : string) (t : list (event Value)) : Prop :=
  Forall (fun e =>
            match e with
            | EvGet k => k = key
            | EvSetex k _ _ => k = key
            | EvFetch => True
            | EvKeys _ => False
            | EvDel _ => False
            end) t.

(** ** The catalog page: [catalog-client.tsx], [altar-filters.tsx],
    [altar-grid.tsx] and the two versions of the home page *)

(** [z.enum(['seres_queridos', 'bebes_no_nacidos', 'mascotas'])] *)
Inductive ModelType : Type := seres_queridos | bebes_no_nacidos | mascotas.

#[global] Instance ModelType_eq_dec : EqDecision ModelType.
Proof. solve_decision. Defined.

(** [ModelType | 'all'] *)
Inductive FilterType : Type := all_types | of_type (t : ModelType).

(** The fields of an altar the catalog components read. *)
Record Altar : Type := {
  altar_id : string;
  altar_nombre : string;
  modelo_tipo : ModelType;
  imagen_principal : option string;
  altar_destacado : bool;
  altar_slug : string
}.

Definition filteredAltares (altares : list Altar) (selectedType : FilterType)
    : list Altar :=
  match selectedType with
  | all_types => altares
  | of_type t => List.filter (fun altar => bool_decide (modelo_tipo altar = t)) altares
  end.

(** [Record<ModelType | 'all', number>] *)
Record Counts : Type := {
  count_all : nat;
  count_seres_queridos : nat;
  count_bebes_no_nacidos : nat;
  count_mascotas : nat
}.

(** [result[altar.modelo_tipo]++] *)
Definition increment (result : Counts) (t : ModelType) : Counts :=
  match t with
  | seres_queridos =>
      {| count_all := count_all result;
         count_seres_queridos := S (count_seres_queridos result);
         count_bebes_no_nacidos := count_bebes_no_nacidos result;
         count_mascotas := count_mascotas result |}
  | bebes_no_nacidos =>
      {| count_all := count_all result;
         count_seres_queridos := count_seres_queridos result;
         count_bebes_no_nacidos := S (count_bebes_no_nacidos result);
         count_mascotas := count_mascotas result |}
  | mascotas =>
      {| count_all := count_all result;
         count_seres_queridos := count_seres_queridos result;
         count_bebes_no_nacidos := count_bebes_no_nacidos result;
         count_mascotas := S (count_mascotas result) |}
  end.

Definition counts (altares : list Altar) : Counts :=
  fold_left (fun result altar => increment result (modelo_tipo altar)) altares
    {| count_all := length altares; count_seres_queridos := 0;
       count_bebes_no_nacidos := 0; count_mascotas := 0 |}.

(** [counts[option.value]] *)
Definition count_of (c : Counts) (v : FilterType) : nat :=
  match v with
  | all_types => count_all c
  | of_type seres_queridos => count_seres_queridos c
  | of_type bebes_no_nacidos => count_bebes_no_nacidos c
  | of_type mascotas => count_mascotas c
  end.

(** [typeof count === 'number' && count > 0], with [counts] an optional prop. *)
Definition badge_shown (counts : option Counts) (v : FilterType) : bool :=
  match counts with
  | Some c => (0 <? count_of c v)%nat
  | None => false
  end.

Inductive GridView : Type :=
| Skeletons (n : nat)
| EmptyState
| Cards (altares : list Altar).

Definition AltarGrid (altares : list Altar) (isLoading : bool) : GridView :=
  if isLoading then Skeletons 6
  else if (length altares =? 0)%nat then EmptyState
  else Cards altares.

(** What the home page hands to its markup. *)
Record HomeView (Value : Type) : Type := {
  home_altares : nullable Value;
  home_error : option string
}.
Arguments home_altares {Value} h.
Arguments home_error {Value} h.
Arguments Build_HomeView {Value} home_altares home_error.

(** [{error && (...)}]: the notice is rendered for a message that is not
    empty. *)
Definition notice_shown {Value : Type} (v : HomeView Value) : bool :=
  match home_error v with
  | Some m => negb (String.eqb m "")
  | None => false
  end.

Section HomePage.
Context {World Value Exn : Type}.
(** The imported [getCached] and the Supabase query behind [getAltares];
    [e instanceof Error], giving the message; and the empty array. *)
Variable getCached :
  string -> Fetcher World Value Exn -> option Z ->
  M World Value Exn (nullable Value).
Variable selectAltares : Fetcher World Value Exn.
Variable instanceofError : Exn -> option string.
Variable emptyArray : Value.
Local Open Scope async_scope.

(** [Home] of the page that catches ([src/unnamed/part_008]). *)
Definition HomeGuarded : M World Value Exn (HomeView Value) :=
  try_catch
    (altares <- getAltares getCached selectAltares ;;
     ret {| home_altares := altares; home_error := None |})
    (fun e =>
       ret {| home_altares := NonNull emptyArray;
              home_error := Some (match instanceofError e with
                                  | Some message => message
                                  | None => "Error desconocido"
                                  end) |}).

(** [Home] of the page that does not ([src/unnamed/part_009]). *)
Definition HomePlain : M World Value Exn (HomeView Value) :=
  altares <- getAltares getCached selectAltares ;;
  ret {| home_altares := altares; home_error := None |}.

End HomePage.

(** ** [formatRelativeTime] *)

Inductive TimeUnit : Type := second | minute | hour | day | month | year.

(** The seconds the function counts for one unit. *)
Definition unit_seconds (u : TimeUnit) : Z :=
  match u with
  | second => 1
  | minute => 60
  | hour => 3600
  | day => 86400
  | month => 2592000
  | year => 31536000
  end.

(** [rtf.format] is the host's formatter; [nowMs] and [dateMs] are the
    [getTime()] of [new Date()] and of the argument, for valid dates. *)
Definition formatRelativeTime {Text : Type} (rtf_format : Z -> TimeUnit -> Text)
    (nowMs dateMs : Z) : Text :=
  let diffInSeconds := (nowMs - dateMs) / 1000 in
  if diffInSeconds <? 60 then rtf_format (- diffInSeconds) second
  else if diffInSeconds <? 3600 then rtf_format (- (diffInSeconds / 60)) minute
  else if diffInSeconds <? 86400 then rtf_format (- (diffInSeconds / 3600)) hour
  else if diffInSeconds <? 2592000 then rtf_format (- (diffInSeconds / 86400)) day
  else if diffInSeconds <? 31536000 then rtf_format (- (diffInSeconds / 2592000)) month
  else rtf_format (- (diffInSeconds / 31536000)) year.

(** ** Order numbers ([generate_numero_pedido], [set_numero_pedido]) *)

(** The first [n] characters of [fill] repeated, continuing from [cur]. *)
Fixpoint fill_chars (fill cur : string) (n : nat) : string :=
  match n with
  | O => ""
  | S n' =>
      match cur with
      | String c rest => String c (fill_chars fill rest n')
      | EmptyString =>
          match fill with
          | String c rest => String c (fill_chars fill rest n')
          | EmptyString => ""
          end
      end
  end.

(** PostgreSQL's [LPAD]: pad on the left up to [len] characters; a string
    that is already longer is cut on the right. *)
Definition LPAD (s : string) (len : nat) (fill : string) : string :=
  if (len <=? String.length s)%nat then substring 0 len s
  else fill_chars fill fill (len - String.length s) +:+ s.

(** [CREATE SEQUENCE pedidos_seq START 1]; the state is the value the next
    [NEXTVAL] returns. *)
Definition pedidos_seq_start : Z := 1.

Definition NEXTVAL (seq : Z) : Z * Z := (seq, seq + 1).

(** [today] is [TO_CHAR(now(), 'YYYYMMDD')]. *)
Definition generate_numero_pedido (today : string) (seq : Z) : string * Z :=
  let '(n, seq') := NEXTVAL seq in
  ("ALT-" +:+ today +:+ "-" +:+ LPAD (pretty n) 4 "0", seq').

(** The BEFORE INSERT trigger, on [NEW.numero_pedido] ([None] is NULL). *)
Definition set_numero_pedido (today : string) (numero_pedido : option string)
    (seq : Z) : string * Z :=
  match numero_pedido with
  | None => generate_numero_pedido today seq
  | Some n => if String.eqb n "" then generate_numero_pedido today seq else (n, seq)
  end.

(** The last [k] decimal digits of [x], most significant first, before [s]. *)
Fixpoint digits_of (k : nat) (x : N) (s : string) : string :=
  match k with
  | O => s
  | S k' => digits_of k' (x / 10)%N (String (pretty_N_char (x mod 10)%N) s)
  end.

(** ** WhatsApp links ([WHATSAPP_CONFIG], [isMobileDevice]) *)

Definition is_digit (c : ascii) : bool :=
  let n := N_of_ascii c in ((48 <=? n) && (n <=? 57))%N.

(** [s.replace(/[^0-9]/g, '')] *)
Fixpoint strip_non_digits (s : string) : string :=
  match s with
  | EmptyString => ""
  | String c rest =>
      if is_digit c then String c (strip_non_digits rest) else strip_non_digits rest
  end.

(** Case folding of the letters A to Z, as the [i] flag does for a pattern of
    ASCII letters. *)
Definition fold_case (c : ascii) : ascii :=
  let n := N_of_ascii c in
  if ((65 <=? n) && (n <=? 90))%N then ascii_of_N (n + 32) else c.

Fixpoint prefix_ci (word s : string) : bool :=
  match word with
  | EmptyString => true
  | String c word' =>
      match s with
      | EmptyString => false
      | String d s' => Ascii.eqb (fold_case c) (fold_case d) && prefix_ci word' s'
      end
  end.

Fixpoint contains_ci (word s : string) : bool :=
  prefix_ci word s
  || match s with
     | EmptyString => false
     | String _ s' => contains_ci word s'
     end.

(** [/iPhone|iPad|iPod|Android/i.test(ua)] *)
Definition mobile_test (ua : string) : bool :=
  contains_ci "iPhone" ua || contains_ci "iPad" ua || contains_ci "iPod" ua
  || contains_ci "Android" ua.

Module WHATSAPP_CONFIG.
Section Config.
(** The number of the environment, [encodeURIComponent] of the host, and
    [navigator.userAgent] where a navigator is defined. *)
Variable businessNumber : string.
Variable encodeURIComponent : string -> string.
Variable navigator : option string.

Definition getWebUrl (phone message : string) : string :=
  "https://web.whatsapp.com/send?phone=" +:+ phone +:+ "&text="
    +:+ encodeURIComponent message.

Definition getMobileUrl (phone message : string) : string :=
  "https://wa.me/" +:+ phone +:+ "?text=" +:+ encodeURIComponent message.

Definition getUrl (message : string) : string :=
  let phone := strip_non_digits businessNumber in
  let isMobile := mobile_test (default "" navigator) in
  if isMobile then getMobileUrl phone message else getWebUrl phone message.

End Config.
End WHATSAPP_CONFIG.

Definition isMobileDevice (navigator : option string) : bool :=
  match navigator with
  | None => false
  | Some ua => mobile_test ua
  end.

(* ===================================================================== *)
(** * Part II: theorems                                                   *)
(* ===================================================================== *)

(** ** Stepping through awaited calls *)

Section Steps.
Context {World Value Exn : Type}.
Implicit Types (w : World) (t : list (event Value)).

Lemma call_run {A} (ev : event Value) (f : World -> outcome Exn A * World) w r w1 :
  f w = (r, w1) -> call ev f w = (r, w1, [ev]).
Proof. intros H. unfold call. now rewrite H. Qed.

Lemma bind_ok {A B} (m : M World Value Exn A) (k : A -> M World Value Exn B)
    w a w1 t1 :
  m w = (Ok a, w1, t1) ->
  bind m k w = (let '(r, w2, t2) := k a w1 in (r, w2, t1 ++ t2)).
Proof. intros H. unfold bind. rewrite H. now destruct (k a w1) as [[r w2] t2]. Qed.

Lemma bind_throw {A B} (m : M World Value Exn A) (k : A -> M World Value Exn B)
    w e w1 t1 :
  m w = (Throw e, w1, t1) -> bind m k w = (Throw e, w1, t1).
Proof. intros H. unfold bind. now rewrite H. Qed.

Lemma try_catch_ok {A} (m : M World Value Exn A) h w a w1 t1 :
  m w = (Ok a, w1, t1) -> try_catch m h w = (Ok a, w1, t1).
Proof. intros H. unfold try_catch. now rewrite H. Qed.

Lemma try_catch_throw {A} (m : M World Value Exn A) h w e w1 t1 :
  m w = (Throw e, w1, t1) ->
  try_catch m h w = (let '(r, w2, t2) := h e w1 in (r, w2, t1 ++ t2)).
Proof.
  intros H. unfold try_catch. rewrite H. now destruct (h e w1) as [[r w2] t2].
Qed.

End Steps.

(** ** The branches of [getCached] *)

Section CacheAside.
Context {World Value Exn : Type}.
Variable redis : RedisClient World Value Exn.
Implicit Types (key : string) (fetcher : Fetcher World Value Exn)
  (ttl : option Z) (w : World).

(** The lookup throws: both versions fall back to one fetcher call. *)
Lemma getCachedA_get_throws key fetcher ttl w e w1 :
  redis_get redis key w = (Throw e, w1) ->
  ClientA.getCached redis key fetcher ttl w
  = ((fetcher w1).1, (fetcher w1).2, [EvGet key; EvFetch]).
Proof.
  intros Hget. unfold ClientA.getCached.
  destruct (fetcher w1) as [r w2] eqn:Hf.
  erewrite try_catch_throw.
  2:{ erewrite bind_throw; [reflexivity|]. eapply call_run; eassumption. }
  now erewrite call_run by eassumption.
Qed.

Lemma getCachedB_get_throws key fetcher ttl w e w1 :
  redis_get redis key w = (Throw e, w1) ->
  ClientB.getCached redis key fetcher ttl w
  = ((fetcher w1).1, (fetcher w1).2, [EvGet key; EvFetch]).
Proof.
  intros Hget. unfold ClientB.getCached.
  destruct (fetcher w1) as [r w2] eqn:Hf.
  erewrite try_catch_throw.
  2:{ erewrite bind_throw; [reflexivity|]. eapply call_run; eassumption. }
  now erewrite call_run by eassumption.
Qed.

(** The lookup yields a value: it is returned at once. *)
Lemma getCachedA_hit key fetcher ttl w v w1 :
  redis_get redis key w = (Ok (NonNull v), w1) ->
  ClientA.getCached redis key fetcher ttl w = (Ok (NonNull v), w1, [EvGet key]).
Proof.
  intros Hget. unfold ClientA.getCached.
  erewrite try_catch_ok; [reflexivity|].
  erewrite bind_ok by (eapply call_run; eassumption). reflexivity.
Qed.

Lemma getCachedB_hit key fetcher ttl w v w1 :
  redis_get redis key w = (Ok (NonNull v), w1) ->
  ClientB.getCached redis key fetcher ttl w = (Ok (NonNull v), w1, [EvGet key]).
Proof.
  intros Hget. unfold ClientB.getCached.
  erewrite try_catch_ok; [reflexivity|].
  erewrite bind_ok by (eapply call_run; eassumption). reflexivity.
Qed.

(** The lookup yields null and the fetcher yields [data]: lines 1-77 return
    [data] whether or not the write succeeds. *)
Lemma getCachedA_miss_fetched key fetcher ttl w w1 data w2 :
  redis_get redis key w = (Ok Null, w1) ->
  fetcher w1 = (Ok data, w2) ->
  ClientA.getCached redis key fetcher ttl w
  = (Ok data, (redis_setex redis key (default default_ttl ttl) data w2).2,
     [EvGet key; EvFetch; EvSetex key (default default_ttl ttl) data]).
Proof.
  intros Hget Hf. unfold ClientA.getCached.
  destruct (redis_setex redis key (default default_ttl ttl) data w2)
    as [[[]|e] w3] eqn:Hset.
  - erewrite try_catch_ok; [reflexivity|].
    erewrite bind_ok by (eapply call_run; eassumption). cbn beta iota.
    erewrite bind_ok by (eapply call_run; eassumption).
    erewrite bind_ok.
    2:{ erewrite try_catch_ok; [reflexivity|]. eapply call_run; eassumption. }
    reflexivity.
  - erewrite try_catch_ok; [reflexivity|].
    erewrite bind_ok by (eapply call_run; eassumption). cbn beta iota.
    erewrite bind_ok by (eapply call_run; eassumption).
    erewrite bind_ok.
    2:{ erewrite try_catch_throw; [reflexivity|]. eapply call_run; eassumption. }
    reflexivity.
Qed.

(** The lookup yields null and the fetcher throws: the outer handler runs the
    fetcher a second time, in both versions. *)
Lemma getCachedA_miss_fetch_throws key fetcher ttl w w1 e w2 :
  redis_get redis key w = (Ok Null, w1) ->
  fetcher w1 = (Throw e, w2) ->
  ClientA.getCached redis key fetcher ttl w
  = ((fetcher w2).1, (fetcher w2).2, [EvGet key; EvFetch; EvFetch]).
Proof.
  intros Hget Hf. unfold ClientA.getCached.
  destruct (fetcher w2) as [r w3] eqn:Hf2.
  erewrite try_catch_throw.
  2:{ erewrite bind_ok by (eapply call_run; eassumption). cbn beta iota.
      erewrite bind_throw by (eapply call_run; eassumption). reflexivity. }
  now erewrite call_run by eassumption.
Qed.

Lemma getCachedB_miss_fetch_throws key fetcher ttl w w1 e w2 :
  redis_get redis key w = (Ok Null, w1) ->
  fetcher w1 = (Throw e, w2) ->
  ClientB.getCached redis key fetcher ttl w
  = ((fetcher w2).1, (fetcher w2).2, [EvGet key; EvFetch; EvFetch]).
Proof.
  intros Hget Hf. unfold ClientB.getCached.
  destruct (fetcher w2) as [r w3] eqn:Hf2.
  erewrite try_catch_throw.
  2:{ erewrite bind_ok by (eapply call_run; eassumption). cbn beta iota.
      erewrite bind_throw by (eapply call_run; eassumption). reflexivity. }
  now erewrite call_run by eassumption.
Qed.

(** Lines 79-146, lookup null, fetcher yields [data], write succeeds. *)
Lemma getCachedB_miss_stored key fetcher ttl w w1 data w2 w3 :
  redis_get redis key w = (Ok Null, w1) ->
  fetcher w1 = (Ok data, w2) ->
  redis_setex redis key (default default_ttl ttl) data w2 = (Ok tt, w3) ->
  ClientB.getCached redis key fetcher ttl w
  = (Ok data, w3, [EvGet key; EvFetch; EvSetex key (default default_ttl ttl) data]).
Proof.
  intros Hget Hf Hset. unfold ClientB.getCached.
  erewrite try_catch_ok; [reflexivity|].
  erewrite bind_ok by (eapply call_run; eassumption). cbn beta iota.
  erewrite bind_ok by (eapply call_run; eassumption).
  erewrite bind_ok by (eapply call_run; eassumption). reflexivity.
Qed.

(** Lines 79-146, lookup null, fetcher yields [data], write throws: the
    handler runs the fetcher again and its outcome is the result. *)
Lemma getCachedB_miss_write_throws key fetcher ttl w w1 data w2 e w3 :
  redis_get redis key w = (Ok Null, w1) ->
  fetcher w1 = (Ok data, w2) ->
  redis_setex redis key (default default_ttl ttl) data w2 = (Throw e, w3) ->
  ClientB.getCached redis key fetcher ttl w
  = ((fetcher w3).1, (fetcher w3).2,
     [EvGet key; EvFetch; EvSetex key (default default_ttl ttl) data; EvFetch]).
Proof.
  intros Hget Hf Hset. unfold ClientB.getCached.
  destruct (fetcher w3) as [r w4] eqn:Hf2.
  erewrite try_catch_throw.
  2:{ erewrite bind_ok by (eapply call_run; eassumption). cbn beta iota.
      erewrite bind_ok by (eapply call_run; eassumption).
      erewrite bind_throw by (eapply call_run; eassumption). reflexivity. }
  now erewrite call_run by eassumption.
Qed.

End CacheAside.

(** ** Claims about the cache-aside wrapper *)

(** A failure that reaches the caller of [getCached] was thrown by the
    fetcher, never by a Redis command. *)
Lemma getCached_throws_only_from_fetcher {World Value Exn : Type}
    (redis : RedisClient World Value Exn) key fetcher ttl w e w' t :
  ClientA.getCached redis key fetcher ttl w = (Throw e, w', t)
  \/ ClientB.getCached redis key fetcher ttl w = (Throw e, w', t) ->
  exists w0 w1, fetcher w0 = (Throw e, w1).
Proof.
  destruct (redis_get redis key w) as [[[|v]|e0] w1] eqn:Hget.
  - destruct (fetcher w1) as [[data|e1] w2] eqn:Hf.
    + destruct (redis_setex redis key (default default_ttl ttl) data w2)
        as [[[]|e2] w3] eqn:Hset.
      * rewrite (getCachedA_miss_fetched _ _ _ _ _ _ _ _ Hget Hf).
        rewrite (getCachedB_miss_stored _ _ _ _ _ _ _ _ _ Hget Hf Hset).
        intros [H|H]; discriminate H.
      * rewrite (getCachedA_miss_fetched _ _ _ _ _ _ _ _ Hget Hf).
        rewrite (getCachedB_miss_write_throws _ _ _ _ _ _ _ _ _ _ Hget Hf Hset).
        destruct (fetcher w3) as [r w4] eqn:Hf2. cbn.
        intros [H|H]; [discriminate H|]. injection H as -> -> _. eauto.
    + rewrite (getCachedA_miss_fetch_throws _ _ _ _ _ _ _ _ Hget Hf).
      rewrite (getCachedB_miss_fetch_throws _ _ _ _ _ _ _ _ Hget Hf).
      destruct (fetcher w2) as [r w3] eqn:Hf2. cbn.
      intros [H|H]; injection H as -> -> _; eauto.
  - rewrite (getCachedA_hit _ _ fetcher ttl _ _ _ Hget).
    rewrite (getCachedB_hit _ _ fetcher ttl _ _ _ Hget).
    intros [H|H]; discriminate H.
  - rewrite (getCachedA_get_throws _ _ fetcher ttl _ _ _ Hget).
    rewrite (getCachedB_get_throws _ _ fetcher ttl _ _ _ Hget).
    destruct (fetcher w1) as [r w2] eqn:Hf. cbn.
    intros [H|H]; injection H as -> -> _; eauto.
Qed.

(** C1 (fail-open cache). When every [get] and every [setex] of the Redis
    client throws, [getCached] (both versions of client.ts) makes one lookup,
    then runs the fetcher once in the world the failed lookup left, and its
    result, final world included, is exactly the fetcher's: a value when the
    fetcher yields one, and a failure only when the fetcher itself fails. *)
Theorem getCached_fail_open {World Value Exn : Type}
    (redis : RedisClient World Value Exn)
    (Hget : forall k w, exists e w1, redis_get redis k w = (Throw e, w1))
    (Hset : forall k ttl d w, exists e w1, redis_setex redis k ttl d w = (Throw e, w1))
    (key : string) (fetcher : Fetcher World Value Exn) (ttl : option Z) (w : World) :
  exists e w1,
    redis_get redis key w = (Throw e, w1)
    /\ ClientA.getCached redis key fetcher ttl w
       = ((fetcher w1).1, (fetcher w1).2, [EvGet key; EvFetch])
    /\ ClientB.getCached redis key fetcher ttl w
       = ((fetcher w1).1, (fetcher w1).2, [EvGet key; EvFetch]).
Proof.
  destruct (Hget key w) as (e & w1 & Hg).
  exists e, w1. split; [exact Hg|]. split.
  - now apply getCachedA_get_throws with (e := e).
  - now apply getCachedB_get_throws with (e := e).
Qed.

Lemma getCached_fail_open_witness :
  let w := {| store := ∅; fetched := 0 |} in
  let fetcher := steady_fetcher (NonNull "[]") in
  exists e w1,
    redis_get down_redis "altares:all" w = (Throw e, w1)
    /\ ClientA.getCached down_redis "altares:all" fetcher (Some 3600) w
       = ((fetcher w1).1, (fetcher w1).2, [EvGet "altares:all"; EvFetch])
    /\ ClientB.getCached down_redis "altares:all" fetcher (Some 3600) w
       = ((fetcher w1).1, (fetcher w1).2, [EvGet "altares:all"; EvFetch]).
Proof.
  intros w fetcher.
  apply (getCached_fail_open (@down_redis string)).
  - intros k w0. exists "ECONNREFUSED", w0. reflexivity.
  - intros k ttl d w0. exists "ECONNREFUSED", w0. reflexivity.
Defined.

(** C9 (cache hit is terminal). When [redis.get] succeeds with a value that is
    not null, both versions of [getCached] return that value unchanged after
    the single lookup: the fetcher is not invoked and nothing is written. *)
Theorem getCached_hit_terminal {World Value Exn : Type}
    (redis : RedisClient World Value Exn)
    (key : string) (fetcher : Fetcher World Value Exn) (ttl : option Z)
    (w w1 : World) (v : Value)
    (Hget : redis_get redis key w = (Ok (NonNull v), w1)) :
  let a := ClientA.getCached redis key fetcher ttl w in
  let b := ClientB.getCached redis key fetcher ttl w in
  a = (Ok (NonNull v), w1, [EvGet key]) /\ b = a
  /\ fetch_count a.2 = 0%nat /\ write_count a.2 = 0%nat.
Proof.
  intros a b. subst a b.
  rewrite (getCachedA_hit redis key fetcher ttl w v w1 Hget).
  rewrite (getCachedB_hit redis key fetcher ttl w v w1 Hget).
  repeat split.
Qed.

Lemma getCached_hit_terminal_witness :
  let w := {| store := {["altares:all" := NonNull "[1,2]"]}; fetched := 0 |} in
  let fetcher := steady_fetcher (NonNull "[3]") in
  let a := ClientA.getCached mem_redis "altares:all" fetcher None w in
  let b := ClientB.getCached mem_redis "altares:all" fetcher None w in
  a = (Ok (NonNull "[1,2]"), w, [EvGet "altares:all"]) /\ b = a
  /\ fetch_count a.2 = 0%nat /\ write_count a.2 = 0%nat.
Proof.
  intros w fetcher.
  apply (getCached_hit_terminal (@mem_redis string)).
  reflexivity.
Defined.

(** C10 (null is indistinguishable from absence). When the lookup yields
    null, as it does for a key that holds a stored null, both versions of
    [getCached] go on to invoke the fetcher right after the lookup, and the
    result they return is the outcome of a fetcher invocation, not the cached
    null. *)
Theorem getCached_null_is_miss {World Value Exn : Type}
    (redis : RedisClient World Value Exn)
    (key : string) (fetcher : Fetcher World Value Exn) (ttl : option Z)
    (w w1 : World)
    (Hget : redis_get redis key w = (Ok Null, w1)) :
  let a := ClientA.getCached redis key fetcher ttl w in
  let b := ClientB.getCached redis key fetcher ttl w in
  (exists t, a.2 = EvGet key :: EvFetch :: t)
  /\ (exists t, b.2 = EvGet key :: EvFetch :: t)
  /\ (exists w0, (fetcher w0).1 = a.1.1)
  /\ (exists w0, (fetcher w0).1 = b.1.1).
Proof.
  intros a b. subst a b.
  destruct (fetcher w1) as [[data|e1] w2] eqn:Hf.
  - rewrite (getCachedA_miss_fetched _ _ _ ttl _ _ _ _ Hget Hf).
    destruct (redis_setex redis key (default default_ttl ttl) data w2)
      as [[[]|e2] w3] eqn:Hset.
    + rewrite (getCachedB_miss_stored _ _ _ _ _ _ _ _ _ Hget Hf Hset). cbn.
      repeat split; eauto; exists w1; now rewrite Hf.
    + rewrite (getCachedB_miss_write_throws _ _ _ _ _ _ _ _ _ _ Hget Hf Hset). cbn.
      repeat split; eauto. exists w1; now rewrite Hf.
  - rewrite (getCachedA_miss_fetch_throws _ _ _ ttl _ _ _ _ Hget Hf).
    rewrite (getCachedB_miss_fetch_throws _ _ _ ttl _ _ _ _ Hget Hf). cbn.
    repeat split; eauto.
Qed.

Lemma getCached_null_is_miss_witness :
  let w := {| store := {["altar:7" := Null]}; fetched := 0 |} in
  let fetcher := steady_fetcher (Null : nullable string) in
  let a := ClientA.getCached mem_redis "altar:7" fetcher None w in
  let b := ClientB.getCached mem_redis "altar:7" fetcher None w in
  (exists t, a.2 = EvGet "altar:7" :: EvFetch :: t)
  /\ (exists t, b.2 = EvGet "altar:7" :: EvFetch :: t)
  /\ (exists w0, (fetcher w0).1 = a.1.1)
  /\ (exists w0, (fetcher w0).1 = b.1.1).
Proof.
  intros w fetcher.
  apply (getCached_null_is_miss (@mem_redis string)) with (w1 := w).
  reflexivity.
Defined.

(** A stored null is fetched again on every read: after a first
    [getCached] has cached the fetcher's null, a second one still runs the
    fetcher. *)
Example stored_null_is_fetched_again :
  let w := {| store := ∅; fetched := 0 |} in
  let fetcher := steady_fetcher (Null : nullable string) in
  let first := ClientA.getCached mem_redis "altar:7" fetcher None w in
  let second := ClientA.getCached mem_redis "altar:7" fetcher None first.1.2 in
  store first.1.2 !! "altar:7" = Some Null
  /\ second.2 = [EvGet "altar:7"; EvFetch; EvSetex "altar:7" 3600 Null]
  /\ fetched second.1.2 = 2%nat.
Proof. vm_compute. repeat split. Qed.

(** C6 (no internal retry), evaluated where it fails. On a reachable, empty
    cache, a fetcher whose first invocation throws is invoked a second time by
    the outer handler of [getCached]; the caller gets the second outcome, so
    the first failure is not surfaced, and with a fetcher that always throws
    the failure is surfaced only after two invocations. *)
Theorem getCached_refetches_after_failed_fetch :
  let w := {| store := ∅; fetched := 0 |} in
  let a := ClientA.getCached mem_redis "altares:all"
             (flaky_fetcher (NonNull "[]")) (Some 3600) w in
  let b := ClientB.getCached mem_redis "altares:all"
             (flaky_fetcher (NonNull "[]")) (Some 3600) w in
  let c := ClientA.getCached mem_redis "altares:all"
             (@failing_fetcher string) (Some 3600) w in
  a = (Ok (NonNull "[]"), {| store := ∅; fetched := 2 |},
       [EvGet "altares:all"; EvFetch; EvFetch])
  /\ b = a
  /\ fetch_count a.2 = 2%nat
  /\ c.1.1 = Throw "Failed to fetch altares" /\ fetch_count c.2 = 2%nat.
Proof.
  intros w a b c. subst a b c.
  rewrite (getCachedA_miss_fetch_throws mem_redis "altares:all"
             (flaky_fetcher (NonNull "[]")) (Some 3600) w w
             "Failed to fetch altares" {| store := ∅; fetched := 1 |});
    [|reflexivity|reflexivity].
  rewrite (getCachedB_miss_fetch_throws mem_redis "altares:all"
             (flaky_fetcher (NonNull "[]")) (Some 3600) w w
             "Failed to fetch altares" {| store := ∅; fetched := 1 |});
    [|reflexivity|reflexivity].
  rewrite (getCachedA_miss_fetch_throws mem_redis "altares:all"
             (@failing_fetcher string) (Some 3600) w w
             "Failed to fetch altares" {| store := ∅; fetched := 1 |});
    [|reflexivity|reflexivity].
  repeat split.
Qed.

(** ** The stable sort behind [generatePriceCalcHash] *)

Section SortFacts.
Context {A : Type}.
Variable compareFn : A -> A -> Z.

(** What ECMAScript asks of a consistent comparator, on the side the sort
    looks at. *)
Hypothesis compare_total : forall a b, compareFn a b <= 0 \/ compareFn b a <= 0.
Hypothesis compare_trans :
  forall a b c, compareFn a b <= 0 -> compareFn b c <= 0 -> compareFn a c <= 0.





(** Stability: elements the comparator does not separate keep their order. *)
Lemma sort_insert_stable (x y : A) (l : list A) :
  compareFn x y <= 0 -> sort_insert compareFn x (y :: l) = x :: y :: l.
Proof. intros H. cbn. now destruct (Z.leb_spec (compareFn x y) 0); [|lia]. Qed.


End SortFacts.

(** [codeCompare] is a consistent comparator. *)
Lemma string_compare_le_trans (a b c : string) :
  String.compare a b <> Gt -> String.compare b c <> Gt -> String.compare a c <> Gt.
Proof.
  revert b c. induction a as [|x a IH]; intros [|y b] [|z c]; cbn; try congruence.
  unfold Ascii.compare.
  destruct (N.compare_spec (N_of_ascii x) (N_of_ascii y)) as [Exy|Lxy|Gxy];
    destruct (N.compare_spec (N_of_ascii y) (N_of_ascii z)) as [Eyz|Lyz|Gyz];
    destruct (N.compare_spec (N_of_ascii x) (N_of_ascii z)) as [Exz|Lxz|Gxz];
    try congruence; try lia; eauto.
Qed.






(** ** Claims about the cache key of a price calculation *)

Example hash_sorts_extras :
  generatePriceCalcHash codeCompare
    (calc_params (Some [ {| itemId := "pan"; cantidad := 2 |};
                         {| itemId := "calavera"; cantidad := 1 |} ]))
  = "g3-a40-w25-1-calavera:1,pan:2".
Proof. vm_compute. reflexivity. Qed.

Example hash_without_extras :
  generatePriceCalcHash codeCompare (calc_params None) = "g3-a40-w25-1-"
  /\ generatePriceCalcHash codeCompare (calc_params (Some [])) = "g3-a40-w25-1-".
Proof. vm_compute. split; reflexivity. Qed.

(** Whatever the collation, an identifier compares equal to itself, so two
    entries with the same [itemId] stay in the order they were given. *)
Lemma hash_keeps_order_of_equal_ids (localeCompare : string -> string -> Z)
    (id : string) (q1 q2 : Z) :
  localeCompare id id <= 0 ->
  array_sort (fun a b => localeCompare (itemId a) (itemId b))
    [ {| itemId := id; cantidad := q1 |}; {| itemId := id; cantidad := q2 |} ]
  = [ {| itemId := id; cantidad := q1 |}; {| itemId := id; cantidad := q2 |} ].
Proof. intros H. cbn. now destruct (Z.leb_spec (localeCompare id id) 0); [|lia]. Qed.




(** ** Claims about the time-to-live policy *)

Section WriteTtl.
Context {World Value Exn : Type}.
Variable redis : RedisClient World Value Exn.

(** The only write [getCached] can issue carries its [ttl] argument. *)
Lemma getCachedA_writes_with_ttl key (fetcher : Fetcher World Value Exn) ttl w :
  writes_with_ttl (default default_ttl ttl)
    (ClientA.getCached redis key fetcher ttl w).2.
Proof.
  unfold writes_with_ttl.
  destruct (redis_get redis key w) as [[[|v]|e0] w1] eqn:Hget.
  - destruct (fetcher w1) as [[data|e1] w2] eqn:Hf.
    + rewrite (getCachedA_miss_fetched _ _ _ _ _ _ _ _ Hget Hf). cbn.
      repeat constructor.
    + rewrite (getCachedA_miss_fetch_throws _ _ _ _ _ _ _ _ Hget Hf). cbn.
      repeat constructor.
  - rewrite (getCachedA_hit _ _ fetcher ttl _ _ _ Hget). cbn. repeat constructor.
  - rewrite (getCachedA_get_throws _ _ fetcher ttl _ _ _ Hget). cbn.
    repeat constructor.
Qed.

Lemma getCachedB_writes_with_ttl key (fetcher : Fetcher World Value Exn) ttl w :
  writes_with_ttl (default default_ttl ttl)
    (ClientB.getCached redis key fetcher ttl w).2.
Proof.
  unfold writes_with_ttl.
  destruct (redis_get redis key w) as [[[|v]|e0] w1] eqn:Hget.
  - destruct (fetcher w1) as [[data|e1] w2] eqn:Hf.
    + destruct (redis_setex redis key (default default_ttl ttl) data w2)
        as [[[]|e2] w3] eqn:Hset.
      * rewrite (getCachedB_miss_stored _ _ _ _ _ _ _ _ _ Hget Hf Hset). cbn.
        repeat constructor.
      * rewrite (getCachedB_miss_write_throws _ _ _ _ _ _ _ _ _ _ Hget Hf Hset).
        cbn. repeat constructor.
    + rewrite (getCachedB_miss_fetch_throws _ _ _ _ _ _ _ _ Hget Hf). cbn.
      repeat constructor.
  - rewrite (getCachedB_hit _ _ fetcher ttl _ _ _ Hget). cbn. repeat constructor.
  - rewrite (getCachedB_get_throws _ _ fetcher ttl _ _ _ Hget). cbn.
    repeat constructor.
Qed.

End WriteTtl.

(** C7, as stated, fails on its last equation: price-calculation results have
    a time-to-live of their own, 600 seconds, not the MEDIUM value. *)
Lemma calculation_ttl_is_not_medium :
  CACHE_TTL.CALCULATION <> CACHE_TTL.MEDIUM
  /\ CACHE_TTL.CALCULATION = 600 /\ CACHE_TTL.MEDIUM = 1800.
Proof. repeat split. discriminate. Qed.

(** C7 (TTL policy), amended. The catalog, configuration, extra-item and
    discount-rule time-to-live values equal LONG, and every write a catalog
    read issues carries it; price-calculation results have their own
    time-to-live of 600 seconds, between SHORT and MEDIUM, while
    [CACHE_TTL.PRICING] equals MEDIUM. *)
Theorem ttl_policy :
  CACHE_TTL.CATALOG = CACHE_TTL.LONG
  /\ CACHE_TTL.CONFIG = CACHE_TTL.LONG
  /\ CACHE_TTL.EXTRAS = CACHE_TTL.LONG
  /\ CACHE_TTL.DISCOUNTS = CACHE_TTL.LONG
  /\ CACHE_TTL.PRICING = CACHE_TTL.MEDIUM
  /\ CACHE_TTL.CALCULATION = 600
  /\ CACHE_TTL.SHORT < CACHE_TTL.CALCULATION < CACHE_TTL.MEDIUM
  /\ (forall (World Value Exn : Type) (redis : RedisClient World Value Exn)
        (sel : Fetcher World Value Exn) (selBy : string -> Fetcher World Value Exn)
        (x : string) (w : World),
        writes_with_ttl CACHE_TTL.LONG (getAltares (ClientA.getCached redis) sel w).2
        /\ writes_with_ttl CACHE_TTL.LONG (getAltares (ClientB.getCached redis) sel w).2
        /\ writes_with_ttl CACHE_TTL.LONG
             (getAltaresByType (ClientA.getCached redis) selBy x w).2
        /\ writes_with_ttl CACHE_TTL.LONG
             (getAltaresByType (ClientB.getCached redis) selBy x w).2
        /\ writes_with_ttl CACHE_TTL.LONG
             (getAltarById (ClientA.getCached redis) selBy x w).2
        /\ writes_with_ttl CACHE_TTL.LONG
             (getAltarById (ClientB.getCached redis) selBy x w).2
        /\ writes_with_ttl CACHE_TTL.LONG
             (getAltarBySlug (ClientA.getCached redis) selBy x w).2
        /\ writes_with_ttl CACHE_TTL.LONG
             (getAltarBySlug (ClientB.getCached redis) selBy x w).2).
Proof.
  repeat (split; [reflexivity || (cbv; split; reflexivity)|]).
  intros World Value Exn redis sel selBy x w.
  unfold getAltares, getAltaresByType, getAltarById, getAltarBySlug.
  repeat split;
    first [ apply (getCachedA_writes_with_ttl redis _ _ (Some CACHE_TTL.CATALOG))
          | apply (getCachedB_writes_with_ttl redis _ _ (Some CACHE_TTL.CATALOG)) ].
Qed.

Example catalog_read_writes_for_an_hour :
  (getAltares (ClientA.getCached mem_redis) (steady_fetcher (NonNull "[]"))
     {| store := ∅; fetched := 0 |}).2
  = [EvGet "altares:all"; EvFetch; EvSetex "altares:all" 3600 (NonNull "[]")].
Proof. vm_compute. reflexivity. Qed.

(** ** Claims about invalidation *)

Lemma glob_star_any (s : string) : glob "*" s = true.
Proof.
  induction s as [|c s IH]; [reflexivity|].
  cbn in *. exact IH.
Qed.

Lemma glob_prefix_star (c : ascii) (p s : string) :
  Ascii.eqb c "*" = false -> glob (String c p) (String c s) = glob p s.
Proof. intros H. cbn. rewrite H. now rewrite Ascii.eqb_refl. Qed.

(** Every quote-result key matches [ALL_PRICING], and every extra-item key
    matches [ALL_EXTRAS]. *)
Lemma quote_keys_match_ALL_PRICING (hash : string) :
  glob CACHE_KEYS.PATTERNS.ALL_PRICING (CACHE_KEYS.PRECIO_CALCULATION hash) = true.
Proof.
  unfold CACHE_KEYS.PATTERNS.ALL_PRICING, CACHE_KEYS.PRECIO_CALCULATION.
  cbn [String.append].
  repeat (rewrite glob_prefix_star by reflexivity).
  apply glob_star_any.
Qed.

Lemma extra_keys_match_ALL_EXTRAS (tipo : string) :
  glob CACHE_KEYS.PATTERNS.ALL_EXTRAS (CACHE_KEYS.ITEMS_EXTRA_BY_TYPE tipo) = true
  /\ glob CACHE_KEYS.PATTERNS.ALL_EXTRAS CACHE_KEYS.ITEMS_EXTRA = true.
Proof.
  split; [|reflexivity].
  unfold CACHE_KEYS.PATTERNS.ALL_EXTRAS, CACHE_KEYS.ITEMS_EXTRA_BY_TYPE.
  cbn [String.append].
  repeat (rewrite glob_prefix_star by reflexivity).
  apply glob_star_any.
Qed.

Lemma lookup_foldr_delete {V : Type} (m : gmap string V) (ks : list string) (k : string) :
  foldr delete m ks !! k = if decide (k ∈ ks) then None else m !! k.
Proof.
  induction ks as [|k' ks IH]; cbn.
  - now rewrite decide_False by apply not_elem_of_nil.
  - destruct (decide (k' = k)) as [->|Hne].
    + rewrite lookup_delete_eq. rewrite decide_True; [done|]. left.
    + rewrite lookup_delete_ne by done. rewrite IH.
      destruct (decide (k ∈ ks)) as [Hin|Hnin].
      * rewrite decide_True; [done|]. now right.
      * rewrite decide_False; [done|]. intros [?|?]%elem_of_cons; congruence.
Qed.

Lemma mem_keys_spec {V : Type} (pattern k : string) (w : Mem V) :
  k ∈ filter (fun k => glob pattern k = true) (elements (dom (store w)))
  <-> glob pattern k = true /\ is_Some (store w !! k).
Proof. now rewrite list_elem_of_filter, elem_of_elements, elem_of_dom. Qed.

(** [invalidateCache] absorbs every failure of the Redis commands. *)
Lemma invalidateCache_never_throws {World Value Exn : Type}
    (redis : RedisClient World Value Exn) (pattern : string) (w : World) :
  (ClientA.invalidateCache redis pattern w).1.1 = Ok tt
  /\ (ClientB.invalidateCache redis pattern w).1.1 = Ok tt.
Proof.
  unfold ClientA.invalidateCache, ClientB.invalidateCache, try_catch, bind, call, ret.
  destruct (redis_keys redis pattern w) as [[keys|e] w1]; [|now split].
  destruct (0 <? length keys)%nat; [|now split].
  destruct (redis_del redis keys w1) as [[n|e] w2]; now split.
Qed.

(** One run of [invalidateCache] against a reachable server. *)
Lemma invalidateCache_mem_run {V : Type} (pattern : string) (w : Mem V) :
  ClientA.invalidateCache mem_redis pattern w
  = let keys := filter (fun k => glob pattern k = true) (elements (dom (store w))) in
    if (0 <? length keys)%nat
    then (Ok tt, with_store w (foldr delete (store w) keys),
          [EvKeys pattern; EvDel keys])
    else (Ok tt, w, [EvKeys pattern]).
Proof.
  unfold ClientA.invalidateCache, try_catch, bind, call, ret.
  cbn [redis_keys redis_del mem_redis mem_keys mem_del].
  now destruct (0 <? length _)%nat.
Qed.

(** On a reachable server [invalidateCache] deletes the keys that match the
    pattern and leaves every other key as it was. *)
Lemma invalidateCache_mem_store {V : Type} (pattern : string) (w : Mem V) (k : string) :
  store (ClientA.invalidateCache mem_redis pattern w).1.2 !! k
  = (if glob pattern k then None else store w !! k).
Proof.
  rewrite invalidateCache_mem_run.
  set (keys := filter (fun k => glob pattern k = true) (elements (dom (store w)))).
  assert (Hk : k ∈ keys <-> glob pattern k = true /\ is_Some (store w !! k))
    by apply mem_keys_spec.
  cbv zeta. destruct (0 <? length keys)%nat eqn:Hlen; cbn [fst snd store with_store].
  - rewrite lookup_foldr_delete.
    destruct (decide (k ∈ keys)) as [Hin|Hnin].
    + apply Hk in Hin as [-> _]. reflexivity.
    + destruct (glob pattern k) eqn:Hg; [|reflexivity].
      destruct (store w !! k) eqn:Hl; [|reflexivity].
      exfalso. apply Hnin, Hk. eauto.
  - apply Nat.ltb_ge in Hlen. destruct keys as [|k0 keys']; [|cbn in Hlen; lia].
    destruct (glob pattern k) eqn:Hg; [|reflexivity].
    destruct (store w !! k) eqn:Hl; [|reflexivity].
    exfalso. apply (not_elem_of_nil k), Hk. eauto.
Qed.

Lemma invalidateCache_versions_agree {World Value Exn : Type}
    (redis : RedisClient World Value Exn) (pattern : string) (w : World) :
  ClientB.invalidateCache redis pattern w = ClientA.invalidateCache redis pattern w.
Proof. reflexivity. Qed.

(** [deleteCache] against a reachable server removes the one key. *)
Lemma deleteCache_mem_store {V : Type} (key : string) (w : Mem V) (k : string) :
  store (ClientA.deleteCache mem_redis key w).1.2 !! k
  = (if decide (k = key) then None else store w !! k).
Proof.
  unfold ClientA.deleteCache, try_catch, bind, call, ret.
  cbn [redis_del mem_redis mem_del fst snd store with_store foldr].
  destruct (decide (k = key)) as [->|Hne].
  - apply lookup_delete_eq.
  - now apply lookup_delete_ne.
Qed.




(** ** Claims about the discount engine *)

Lemma highest_tier_in (l : list DiscountTier) (t : DiscountTier) :
  highest_tier l = Some t -> In t l.
Proof.
  revert t. induction l as [|x l IH]; cbn; [discriminate|].
  intros t. destruct (highest_tier l) as [best|].
  - destruct (minQuantity best <=? minQuantity x); intros [= <-]; auto.
  - intros [= <-]. now left.
Qed.

Lemma highest_tier_max (l : list DiscountTier) (t : DiscountTier) :
  highest_tier l = Some t ->
  forall t', In t' l -> minQuantity t' <= minQuantity t.
Proof.
  revert t. induction l as [|x l IH]; cbn; [discriminate|].
  intros t Ht t' Hin. destruct (highest_tier l) as [best|] eqn:Hbest.
  - specialize (IH best eq_refl).
    destruct (Z.leb_spec (minQuantity best) (minQuantity x)) as [Hle|Hlt];
      injection Ht as <-; destruct Hin as [<-|Hin]; try lia.
    + specialize (IH t' Hin). lia.
    + now apply IH.
  - injection Ht as <-. destruct Hin as [<-|Hin]; [lia|].
    destruct l; [destruct Hin|]. cbn in Hbest.
    destruct (highest_tier l); discriminate Hbest.
Qed.

Lemma highest_tier_none (l : list DiscountTier) : highest_tier l = None -> l = [].
Proof.
  destruct l as [|x l]; [reflexivity|]. cbn.
  destruct (highest_tier l); discriminate.
Qed.

Lemma tier_qualifies_spec (itemCount : Z) (t : DiscountTier) :
  tier_qualifies itemCount t = true
  <-> tierActive t = true /\ minQuantity t <= itemCount.
Proof. unfold tier_qualifies. rewrite andb_true_iff, Z.leb_le. tauto. Qed.

(** [round_div] is the nearest integer to the quotient, halves rounded up. *)
Lemma round_div_nearest (num den : Z) :
  0 < den -> - den < 2 * (den * round_div num den - num) <= den.
Proof.
  intros Hden. unfold round_div.
  pose proof (Z.div_mod (2 * num + den) (2 * den) ltac:(lia)) as Hdm.
  pose proof (Z.mod_pos_bound (2 * num + den) (2 * den) ltac:(lia)) as Hm.
  nia.
Qed.

(** A percentage between 0 and 100 of a subtotal that is not negative lies
    between 0 and the subtotal, also after rounding. *)
Lemma round_div_percentage_bounds (subtotal pct : Z) :
  0 <= subtotal -> 0 <= pct <= 10000 ->
  0 <= round_div (subtotal * pct) 10000 <= subtotal.
Proof.
  intros Hs Hp. unfold round_div. split.
  - apply Z.div_pos; nia.
  - apply Z.lt_succ_r. apply Z.div_lt_upper_bound; nia.
Qed.

(** C3 (discount tier selection). The tier [applyDiscount] applies is an
    active tier of the list whose [minQuantity] is at most the item count and
    at least that of every other such tier, and the amount is the subtotal
    times the tier's percentage over 100, rounded to the centavo; when no
    active tier has [minQuantity] at most the item count, the tier is null and
    the amount 0. *)
Theorem applyDiscount_selects_highest_tier
    (tiers : list DiscountTier) (itemCount subtotal : Z) :
  match tier (applyDiscount tiers itemCount subtotal) with
  | Some t =>
      In t tiers /\ tierActive t = true /\ minQuantity t <= itemCount
      /\ (forall t', In t' tiers -> tierActive t' = true ->
            minQuantity t' <= itemCount -> minQuantity t' <= minQuantity t)
      /\ discountOf (applyDiscount tiers itemCount subtotal)
         = round_div (subtotal * percentage t) 10000
      /\ - 10000 < 2 * (10000 * discountOf (applyDiscount tiers itemCount subtotal)
                        - subtotal * percentage t) <= 10000
  | None =>
      (forall t', In t' tiers -> tierActive t' = true -> itemCount < minQuantity t')
      /\ discountOf (applyDiscount tiers itemCount subtotal) = 0
  end.
Proof.
  unfold applyDiscount.
  destruct (highest_tier (List.filter (tier_qualifies itemCount) tiers))
    as [t|] eqn:Hbest; cbn [tier discountOf].
  - pose proof (highest_tier_in _ _ Hbest) as Hin.
    apply filter_In in Hin as [Hin Hq]. apply tier_qualifies_spec in Hq as [Ha Hm].
    repeat split; try assumption.
    + intros t' Hin' Ha' Hm'. apply (highest_tier_max _ _ Hbest).
      apply filter_In. split; [exact Hin'|]. now apply tier_qualifies_spec.
    + apply (round_div_nearest (subtotal * percentage t) 10000). lia.
    + apply (round_div_nearest (subtotal * percentage t) 10000). lia.
  - apply highest_tier_none in Hbest. split; [|reflexivity].
    intros t' Hin' Ha'. apply Z.lt_nge. intros Hm'.
    assert (Hf : In t' (List.filter (tier_qualifies itemCount) tiers)).
    { apply filter_In. split; [exact Hin'|]. now apply tier_qualifies_spec. }
    rewrite Hbest in Hf. destruct Hf.
Qed.

(** Scenarios 4 and 5 on the seed tiers: six items take 10 percent of 1500.00,
    twelve items take 15 percent, four items take nothing. *)
Example discount_scenarios :
  discountOf (applyDiscount seed_tiers 6 150000) = 15000
  /\ option_map percentage (tier (applyDiscount seed_tiers 6 150000)) = Some 1000
  /\ option_map percentage (tier (applyDiscount seed_tiers 12 150000)) = Some 1500
  /\ discountOf (applyDiscount seed_tiers 12 150000) = 22500
  /\ applyDiscount seed_tiers 4 150000 = {| tier := None; discountOf := 0 |}.
Proof. vm_compute. repeat split. Qed.

(** ** Claims about the price resolver *)

Lemma string_leb_le (a b : string) : String.leb a b = true <-> String.compare a b <> Gt.
Proof. unfold String.leb. destruct (String.compare a b); split; congruence. Qed.

Lemma string_leb_refl (a : string) : String.leb a a = true.
Proof. destruct (String.leb_total a a); assumption. Qed.

Lemma string_leb_trans (a b c : string) :
  String.leb a b = true -> String.leb b c = true -> String.leb a c = true.
Proof. rewrite !string_leb_le. apply string_compare_le_trans. Qed.

(** [narrower] orders the rules by band area, then by identifier. *)
Lemma narrower_spec (r1 r2 : PricingRule) :
  narrower r1 r2 = true
  <-> band_area r1 < band_area r2
      \/ (band_area r1 = band_area r2 /\ String.leb (ruleId r1) (ruleId r2) = true).
Proof.
  unfold narrower. rewrite orb_true_iff, andb_true_iff, Z.ltb_lt, Z.eqb_eq. tauto.
Qed.

Lemma narrower_refl (r : PricingRule) : narrower r r = true.
Proof. apply narrower_spec. right. split; [reflexivity|apply string_leb_refl]. Qed.

Lemma narrower_total (r1 r2 : PricingRule) :
  narrower r1 r2 = false -> narrower r2 r1 = true.
Proof.
  intros H. apply narrower_spec.
  destruct (Z.lt_trichotomy (band_area r1) (band_area r2)) as [Hlt|[Heq|Hgt]].
  - assert (narrower r1 r2 = true) by (apply narrower_spec; auto). congruence.
  - destruct (String.leb_total (ruleId r1) (ruleId r2)) as [Hle|Hle].
    + assert (narrower r1 r2 = true) by (apply narrower_spec; auto). congruence.
    + right. split; [lia|exact Hle].
  - now left.
Qed.

Lemma narrower_trans (r1 r2 r3 : PricingRule) :
  narrower r1 r2 = true -> narrower r2 r3 = true -> narrower r1 r3 = true.
Proof.
  rewrite !narrower_spec. intros [H12|[E12 L12]] [H23|[E23 L23]]; try (left; lia).
  right. split; [lia|]. eapply string_leb_trans; eassumption.
Qed.

Lemma narrower_same_id (r1 r2 : PricingRule) :
  narrower r1 r2 = true -> narrower r2 r1 = true -> ruleId r1 = ruleId r2.
Proof.
  rewrite !narrower_spec. intros [H12|[E12 L12]] [H21|[E21 L21]]; try lia.
  now apply String.leb_antisym.
Qed.

Lemma narrowest_in (l : list PricingRule) (r : PricingRule) :
  narrowest l = Some r -> In r l.
Proof.
  revert r. induction l as [|x l IH]; cbn; [discriminate|].
  intros r. destruct (narrowest l) as [best|].
  - destruct (narrower x best); intros [= <-]; auto.
  - intros [= <-]. now left.
Qed.

Lemma narrowest_some (l : list PricingRule) :
  l <> [] -> exists r, narrowest l = Some r.
Proof.
  destruct l as [|x l]; [congruence|]. intros _. cbn.
  destruct (narrowest l); eauto.
Qed.

Lemma narrowest_least (l : list PricingRule) (r : PricingRule) :
  narrowest l = Some r -> forall r', In r' l -> narrower r r' = true.
Proof.
  revert r. induction l as [|x l IH]; cbn; [discriminate|].
  intros r Hr r' Hin. destruct (narrowest l) as [best|] eqn:Hbest.
  - specialize (IH best eq_refl).
    destruct (narrower x best) eqn:Hxb; injection Hr as <-.
    + destruct Hin as [<-|Hin]; [apply narrower_refl|].
      eapply narrower_trans; [exact Hxb|]. now apply IH.
    + destruct Hin as [<-|Hin]; [now apply narrower_total|]. now apply IH.
  - injection Hr as <-. destruct Hin as [<-|Hin]; [apply narrower_refl|].
    destruct l; [destruct Hin|]. cbn in Hbest.
    destruct (narrowest l); discriminate Hbest.
Qed.

(** [id] is the primary key of [reglas_precio]. *)
Lemma rule_of_id (rules : list PricingRule) (r1 r2 : PricingRule) :
  NoDup (map ruleId rules) -> In r1 rules -> In r2 rules ->
  ruleId r1 = ruleId r2 -> r1 = r2.
Proof.
  induction rules as [|x rules IH]; cbn; [intros _ []|].
  intros Hnd [<-|H1] [<-|H2] Hid; inversion Hnd as [|? ? Hx Hnd']; subst.
  - reflexivity.
  - exfalso. apply Hx. rewrite Hid. now apply list_elem_of_In, in_map.
  - exfalso. apply Hx. rewrite <- Hid. now apply list_elem_of_In, in_map.
  - now apply IH.
Qed.

(** C4 (price-rule tie-break). When more than one rule of the snapshot
    matches the request point, [resolve] succeeds with a matching rule whose
    band area is the smallest and whose identifier is the lexicographically
    smallest among the matching rules of that area; the rule is the same for
    every storage order of the snapshot. Identifiers are the primary key of
    the rules. *)
Theorem resolve_tie_break (rules : list PricingRule) (thickness : string)
    (height width : Z)
    (Hmany : (1 < length (List.filter (rule_matches thickness height width) rules))%nat)
    (Hkey : NoDup (map ruleId rules)) :
  exists r,
    resolve rules thickness height width = Success r
    /\ In r rules /\ rule_matches thickness height width r = true
    /\ (forall r', In r' rules -> rule_matches thickness height width r' = true ->
          band_area r < band_area r'
          \/ (band_area r = band_area r'
              /\ String.leb (ruleId r) (ruleId r') = true))
    /\ (forall rules', Permutation rules rules' ->
          resolve rules' thickness height width = Success r).
Proof.
  unfold resolve.
  set (m := rule_matches thickness height width) in *.
  destruct (narrowest_some (List.filter m rules)) as [r Hr].
  { intros E. rewrite E in Hmany. cbn in Hmany. lia. }
  exists r. rewrite Hr.
  pose proof (narrowest_in _ _ Hr) as Hin. apply filter_In in Hin as [Hin Hm].
  pose proof (narrowest_least _ _ Hr) as Hleast.
  repeat split; try assumption.
  - intros r' Hin' Hm'. apply narrower_spec, Hleast, filter_In. now split.
  - intros rules' Hperm.
    destruct (narrowest_some (List.filter m rules')) as [r2 Hr2].
    { intros E.
      assert (Hf : In r (List.filter m rules')).
      { apply filter_In. split; [|exact Hm].
        eapply Permutation_in; [exact Hperm|exact Hin]. }
      rewrite E in Hf. destruct Hf. }
    rewrite Hr2. f_equal.
    pose proof (narrowest_in _ _ Hr2) as Hin2. apply filter_In in Hin2 as [Hin2 Hm2].
    pose proof (narrowest_least _ _ Hr2) as Hleast2.
    assert (Hin2' : In r2 rules).
    { eapply Permutation_in; [apply Permutation_sym; exact Hperm|exact Hin2]. }
    apply (rule_of_id rules); try assumption.
    apply narrower_same_id.
    + apply Hleast2, filter_In. split; [|exact Hm].
      eapply Permutation_in; [exact Hperm|exact Hin].
    + apply Hleast, filter_In. now split.
Qed.

Lemma resolve_tie_break_witness :
  exists r,
    resolve overlapping_rules "grosor-3mm" 4000 2500 = Success r
    /\ In r overlapping_rules
    /\ rule_matches "grosor-3mm" 4000 2500 r = true
    /\ (forall r', In r' overlapping_rules ->
          rule_matches "grosor-3mm" 4000 2500 r' = true ->
          band_area r < band_area r'
          \/ (band_area r = band_area r'
              /\ String.leb (ruleId r) (ruleId r') = true))
    /\ (forall rules', Permutation overlapping_rules rules' ->
          resolve rules' "grosor-3mm" 4000 2500 = Success r).
Proof.
  apply (resolve_tie_break overlapping_rules "grosor-3mm" 4000 2500).
  - vm_compute. lia.
  - apply (bool_decide_unpack _). vm_compute. exact I.
Defined.

Example resolve_picks_rule_a :
  option_map ruleId (narrowest (List.filter (rule_matches "grosor-3mm" 4000 2500)
                                  overlapping_rules)) = Some "rule-a"
  /\ option_map ruleId (narrowest (List.filter (rule_matches "grosor-3mm" 4000 2500)
                                     (rev overlapping_rules))) = Some "rule-a".
Proof. vm_compute. split; reflexivity. Qed.

(** Scenarios 1 to 3 on the seed rules of the 3 mm thickness. *)
Example resolve_scenarios :
  option_map basePrice
    (narrowest (List.filter (rule_matches "grosor-3mm" 4000 2500) seed_rules_3mm))
  = Some 25000
  /\ option_map paintedPrice
       (narrowest (List.filter (rule_matches "grosor-3mm" 4000 2500) seed_rules_3mm))
     = Some 35000
  /\ resolve seed_rules_3mm "grosor-3mm" 5500 2500
     = Failure (NoRuleMatchedError "grosor-3mm" 5500 2500).
Proof. vm_compute. repeat split. Qed.

(** ** Claims about the quote total *)

Lemma sum_prices_nonneg (xs : list ExtraItem) :
  Forall (fun x => extra_checks x = true) xs -> 0 <= sum_prices xs.
Proof.
  induction 1 as [|x xs Hx _ IH]; cbn; [lia|].
  unfold extra_checks in Hx. apply Z.ltb_lt in Hx.
  change (foldr _ 0 xs) with (sum_prices xs). lia.
Qed.

Lemma resolve_in (rules : list PricingRule) thickness height width r :
  resolve rules thickness height width = Success r -> In r rules.
Proof.
  unfold resolve.
  destruct (narrowest (List.filter (rule_matches thickness height width) rules))
    as [r0|] eqn:Hr; [|discriminate].
  intros [= <-]. apply narrowest_in in Hr. now apply filter_In in Hr as [Hr _].
Qed.

Lemma applyDiscount_bounds (tiers : list DiscountTier) (itemCount subtotal : Z) :
  Forall (fun t => tier_checks t = true) tiers -> 0 <= subtotal ->
  0 <= discountOf (applyDiscount tiers itemCount subtotal) <= subtotal.
Proof.
  intros Hwf Hs. unfold applyDiscount.
  destruct (highest_tier (List.filter (tier_qualifies itemCount) tiers))
    as [t|] eqn:Hbest; cbn [discountOf]; [|lia].
  apply highest_tier_in, filter_In in Hbest as [Hin _].
  rewrite Forall_forall in Hwf. specialize (Hwf t (proj2 (list_elem_of_In _ _) Hin)).
  unfold tier_checks in Hwf. rewrite !andb_true_iff, Z.ltb_lt, !Z.leb_le in Hwf.
  apply round_div_percentage_bounds; lia.
Qed.

(** The shape of a successful quote. *)
Lemma computeQuote_success rules tiers config paint quantity extras orderItemCount q :
  computeQuote rules tiers config paint quantity extras orderItemCount = Success q ->
  exists r,
    In r rules /\ 1 <= quantity
    /\ unitPrice q = (if paint then paintedPrice r else basePrice r)
    /\ extrasTotal q = sum_prices extras
    /\ lineSubtotal q = (unitPrice q + extrasTotal q) * quantity
    /\ discountAmount q = discountOf (applyDiscount tiers orderItemCount (lineSubtotal q))
    /\ total q = lineSubtotal q - discountAmount q
    /\ matchedRuleId q = Some (ruleId r).
Proof.
  unfold computeQuote.
  destruct (1 <=? quantity) eqn:Hq; cbn [andb negb]; [|discriminate].
  destruct (available (thicknessOption config)); cbn [andb negb]; [|discriminate].
  destruct (available (heightOption config)); cbn [andb negb]; [|discriminate].
  destruct (available (widthOption config)); cbn [andb negb]; [|discriminate].
  destruct (resolve rules _ _ _) as [r|e] eqn:Hr; [|discriminate].
  intros [= <-]. exists r. cbn.
  apply resolve_in in Hr. apply Z.leb_le in Hq. repeat split; assumption.
Qed.

(** Every quote [computeQuote] returns from rules, tiers and extras that
    satisfy the CHECK constraints of their tables has
    [total = lineSubtotal - discountAmount] and a total that is not negative. *)
Lemma computeQuote_total_invariant (rules : list PricingRule)
    (tiers : list DiscountTier) (config : Configuration) (paint : bool)
    (quantity : Z) (extras : list ExtraItem) (orderItemCount : Z) (q : Quote) :
  Forall (fun r => rule_checks r = true) rules ->
  Forall (fun t => tier_checks t = true) tiers ->
  Forall (fun x => extra_checks x = true) extras ->
  computeQuote rules tiers config paint quantity extras orderItemCount = Success q ->
  total q = lineSubtotal q - discountAmount q /\ 0 <= total q.
Proof.
  intros Hr Ht Hx Hq.
  apply computeQuote_success in Hq
    as (r & Hin & Hqty & Hu & He & Hl & Hd & Htot & _).
  split; [exact Htot|].
  assert (Hsub : 0 <= lineSubtotal q).
  { rewrite Hl, Hu, He. pose proof (sum_prices_nonneg extras Hx) as Hs.
    rewrite Forall_forall in Hr.
    specialize (Hr r (proj2 (list_elem_of_In _ _) Hin)).
    unfold rule_checks in Hr. rewrite !andb_true_iff, !Z.ltb_lt in Hr.
    destruct paint; nia. }
  pose proof (applyDiscount_bounds tiers orderItemCount (lineSubtotal q) Ht Hsub).
  lia.
Qed.

(** Scenario 1 as a quote. *)
Example quote_scenario_1 :
  computeQuote seed_rules_3mm seed_tiers config_3mm_40_25 false 1 [] 1
  = Success {| unitPrice := 25000; extrasTotal := 0; lineSubtotal := 25000;
               discountAmount := 0; total := 25000;
               matchedRuleId := Some "rule-3mm-small" |}.
Proof. vm_compute. reflexivity. Qed.

(** An accepted row whose discount is not NULL satisfies the invariant. *)
Lemma pedido_accepted_with_descuento (p : Pedido) (d : Z) :
  pedido_descuento p = Some d -> pedido_accepted p = true ->
  pedido_total p = pedido_subtotal p - d /\ 0 <= pedido_total p /\ 0 <= d.
Proof.
  unfold pedido_accepted, check_positive_amounts, check_total_calculation.
  intros ->. cbn [sql_test].
  destruct (Z.leb_spec 0 (pedido_subtotal p)), (Z.leb_spec 0 (pedido_total p)),
    (Z.leb_spec 0 d), (Z.eqb_spec (pedido_total p) (pedido_subtotal p - d));
    cbn; intros Hacc; try discriminate Hacc; lia.
Qed.

(** With a NULL discount both constraints evaluate to NULL or TRUE, so any
    subtotal and total that are not negative are accepted. *)
Lemma pedido_accepted_null_descuento (subtotal total : Z) :
  pedido_accepted {| pedido_subtotal := subtotal; pedido_descuento := None;
                     pedido_total := total |}
  = (0 <=? subtotal) && (0 <=? total).
Proof.
  unfold pedido_accepted, check_positive_amounts, check_total_calculation. cbn.
  destruct (0 <=? subtotal), (0 <=? total); reflexivity.
Qed.

(** C5 (quote total invariant), evaluated where it fails. The table accepts
    the row with subtotal 100.00, a NULL discount and total 50.00: both CHECK
    constraints evaluate to NULL on it, which passes. The row does not have
    [total = subtotal - descuento], neither with the discount unknown nor
    with the column's default of 0 in its place. *)
Theorem pedidos_accepts_null_descuento :
  let p := {| pedido_subtotal := 10000; pedido_descuento := None;
              pedido_total := 5000 |} in
  check_positive_amounts p = None /\ check_total_calculation p = None
  /\ pedido_accepted p = true
  /\ ~ pedido_total_invariant p
  /\ pedido_total p <> pedido_subtotal p - default 0 (pedido_descuento p).
Proof.
  cbv zeta. repeat split.
  - intros (d & Hd & _). discriminate Hd.
  - discriminate.
Qed.

(** Scenarios 2 and 4 to 5 as quotes: painted, and six units of one line. *)
Example quote_scenarios :
  option_map unitPrice
    (match computeQuote seed_rules_3mm seed_tiers config_3mm_40_25 true 1 [] 1 with
     | Success q => Some q | Failure _ => None end) = Some 35000
  /\ computeQuote seed_rules_3mm seed_tiers config_3mm_40_25 false 6 [] 6
     = Success {| unitPrice := 25000; extrasTotal := 0; lineSubtotal := 150000;
                  discountAmount := 15000; total := 135000;
                  matchedRuleId := Some "rule-3mm-small" |}
  /\ computeQuote seed_rules_3mm seed_tiers config_3mm_40_25 false 0 [] 6
     = Failure InvalidConfigurationError.
Proof. vm_compute. repeat split. Qed.

(* ===================================================================== *)
(** * Part III: further properties of the sources                         *)
(* ===================================================================== *)

(** ** [client.ts]: the helpers against a reachable cache *)

(** After a lookup that yields null, both versions run the fetcher next. *)
Lemma getCached_miss_fetches {World Value Exn : Type}
    (redis : RedisClient World Value Exn) (key : string)
    (fetcher : Fetcher World Value Exn) (ttl : option Z) (w w1 : World) :
  redis_get redis key w = (Ok Null, w1) ->
  fetches_after_lookup key (ClientA.getCached redis key fetcher ttl w).2
  /\ fetches_after_lookup key (ClientB.getCached redis key fetcher ttl w).2.
Proof.
  intros Hget. unfold fetches_after_lookup.
  destruct (fetcher w1) as [[data|e] w2] eqn:Hf.
  - rewrite (getCachedA_miss_fetched redis key fetcher ttl w w1 data w2 Hget Hf).
    destruct (redis_setex redis key (default default_ttl ttl) data w2)
      as [[[]|e2] w3] eqn:Hs.
    + rewrite (getCachedB_miss_stored redis key fetcher ttl w w1 data w2 w3
                 Hget Hf Hs).
      cbn [snd]. eauto.
    + rewrite (getCachedB_miss_write_throws redis key fetcher ttl w w1 data w2 e2 w3
                 Hget Hf Hs).
      cbn [snd]. eauto.
  - rewrite (getCachedA_miss_fetch_throws redis key fetcher ttl w w1 e w2 Hget Hf).
    rewrite (getCachedB_miss_fetch_throws redis key fetcher ttl w w1 e w2 Hget Hf).
    cbn [snd]. eauto.
Qed.

Lemma upstash_setex_run {V : Type} (readBack : nullable V -> nullable V)
    (key : string) (ttl : Z) (data : nullable V) (w : Timed V) :
  0 < ttl ->
  upstash_setex readBack key ttl data w
  = (Ok tt, {| entries := <[key := (readBack data, clock w + ttl)]> (entries w);
               clock := clock w |}).
Proof.
  intros Httl. unfold upstash_setex.
  destruct (Z.ltb_spec 0 ttl) as [_|Hle]; [reflexivity|lia].
Qed.

(** An entry written with a positive time-to-live is live for that many
    seconds and gone from then on. *)
Lemma live_after_setex {V : Type} (readBack : nullable V -> nullable V)
    (key : string) (ttl seconds : Z) (data : nullable V) (w : Timed V) :
  0 < ttl ->
  live (elapse seconds (upstash_setex readBack key ttl data w).2) key
  = if seconds <? ttl then Some (readBack data) else None.
Proof.
  intros Httl. rewrite upstash_setex_run by exact Httl.
  unfold live, elapse. cbn [snd entries clock]. rewrite lookup_insert_eq.
  destruct (Z.ltb_spec (clock w + seconds) (clock w + ttl)),
    (Z.ltb_spec seconds ttl); try reflexivity; lia.
Qed.

(** What the next [getCached] does, [seconds] after an entry was written from
    [data] with a positive time-to-live. *)
Lemma getCached_after_setex {V : Type} (readBack : nullable V -> nullable V)
    (key : string) (ttl seconds : Z) (data : nullable V)
    (fetcher : Fetcher (Timed V) V string) (ttl' : option Z) (w : Timed V) :
  0 < ttl ->
  let redis := upstash_redis readBack in
  let w1 := elapse seconds (upstash_setex readBack key ttl data w).2 in
  let a := ClientA.getCached redis key fetcher ttl' w1 in
  let b := ClientB.getCached redis key fetcher ttl' w1 in
  match readBack data with
  | NonNull v' =>
      if seconds <? ttl
      then a = (Ok (NonNull v'), w1, [EvGet key]) /\ b = a
      else fetches_after_lookup key a.2 /\ fetches_after_lookup key b.2
  | Null => fetches_after_lookup key a.2 /\ fetches_after_lookup key b.2
  end.
Proof.
  intros Httl redis w1 a b.
  assert (Hget : redis_get redis key w1
                 = (Ok (default Null (if seconds <? ttl then Some (readBack data)
                                      else None)), w1)).
  { subst redis w1. cbn [redis_get upstash_redis]. unfold upstash_get.
    now rewrite live_after_setex. }
  subst a b. destruct (readBack data) as [|v'] eqn:Hback.
  - apply (getCached_miss_fetches redis key fetcher ttl' w1 w1).
    rewrite Hget. now destruct (seconds <? ttl).
  - destruct (seconds <? ttl).
    + rewrite (getCachedA_hit redis key fetcher ttl' w1 v' w1 Hget).
      now rewrite (getCachedB_hit redis key fetcher ttl' w1 v' w1 Hget).
    + now apply (getCached_miss_fetches redis key fetcher ttl' w1 w1).
Qed.

(** X1. After [setCache] with a positive time-to-live against a reachable
    cache, a [getCached] of that key made before the entry expires returns
    what the client reads back for the written value, from the cache alone,
    unless that is null; when it is null, and once the entry has expired,
    [getCached] runs the fetcher. *)
Theorem setCache_then_getCached_hits {V : Type}
    (readBack : nullable V -> nullable V) (key : string) (v : V)
    (ttl ttl' : option Z) (seconds : Z)
    (fetcher : Fetcher (Timed V) V string) (w : Timed V)
    (Httl : 0 < default 3600 ttl) :
  let redis := upstash_redis readBack in
  let w1 := elapse seconds (ClientA.setCache redis key (NonNull v) ttl w).1.2 in
  let a := ClientA.getCached redis key fetcher ttl' w1 in
  let b := ClientB.getCached redis key fetcher ttl' w1 in
  ClientB.setCache redis key (NonNull v) ttl w
  = ClientA.setCache redis key (NonNull v) ttl w
  /\ match readBack (NonNull v) with
     | NonNull v' =>
         if seconds <? default 3600 ttl
         then a = (Ok (NonNull v'), w1, [EvGet key]) /\ b = a
         else fetches_after_lookup key a.2 /\ fetches_after_lookup key b.2
     | Null => fetches_after_lookup key a.2 /\ fetches_after_lookup key b.2
     end.
Proof.
  intros redis w1 a b. split; [reflexivity|].
  assert (Hw1 : w1 = elapse seconds
                       (upstash_setex readBack key (default 3600 ttl) (NonNull v) w).2).
  { subst w1 redis. unfold ClientA.setCache, try_catch, bind, call, ret, default_ttl.
    cbn [redis_setex upstash_redis].
    now rewrite (upstash_setex_run readBack key _ (NonNull v) w Httl). }
  subst a b. rewrite Hw1.
  exact (getCached_after_setex readBack key (default 3600 ttl) seconds (NonNull v)
           fetcher ttl' w Httl).
Qed.

Lemma setCache_then_getCached_hits_witness :
  let redis := upstash_redis readBack_text in
  let fetcher : Fetcher (Timed string) string string := fun w => (Ok (NonNull "[]"), w) in
  let w1 := elapse 3599 (ClientA.setCache redis "altares:all" (NonNull "[]") None
                           {| entries := ∅; clock := 0 |}).1.2 in
  let a := ClientA.getCached redis "altares:all" fetcher None w1 in
  let b := ClientB.getCached redis "altares:all" fetcher None w1 in
  ClientB.setCache redis "altares:all" (NonNull "[]") None {| entries := ∅; clock := 0 |}
  = ClientA.setCache redis "altares:all" (NonNull "[]") None {| entries := ∅; clock := 0 |}
  /\ (a = (Ok (NonNull "[]"), w1, [EvGet "altares:all"]) /\ b = a).
Proof.
  intros redis fetcher.
  apply (setCache_then_getCached_hits readBack_text "altares:all" "[]" None None 3599
           fetcher {| entries := ∅; clock := 0 |}).
  reflexivity.
Defined.

(** X2. After a miss whose fetch yields a value that is not null, written with
    a positive time-to-live to a reachable cache, both versions return that
    value after one fetch and one write; a second [getCached] made before the
    entry expires returns what the client reads back for the value without
    running any fetcher, unless that is null; when it is null, and once the
    entry has expired, the second [getCached] runs its fetcher. *)
Theorem getCached_populates_cache {V : Type}
    (readBack : nullable V -> nullable V) (key : string)
    (fetcher : Fetcher (Timed V) V string) (ttl : option Z) (w w2 : Timed V) (v : V)
    (Httl : 0 < default 3600 ttl)
    (Hmiss : default Null (live w key) = Null)
    (Hfetch : fetcher w = (Ok (NonNull v), w2)) :
  let redis := upstash_redis readBack in
  let a := ClientA.getCached redis key fetcher ttl w in
  let b := ClientB.getCached redis key fetcher ttl w in
  a.1.1 = Ok (NonNull v) /\ b = a
  /\ a.2 = [EvGet key; EvFetch; EvSetex key (default 3600 ttl) (NonNull v)]
  /\ (forall (seconds : Z) fetcher' ttl',
        let w' := elapse seconds a.1.2 in
        let a' := ClientA.getCached redis key fetcher' ttl' w' in
        let b' := ClientB.getCached redis key fetcher' ttl' w' in
        match readBack (NonNull v) with
        | NonNull v' =>
            if seconds <? default 3600 ttl
            then a' = (Ok (NonNull v'), w', [EvGet key]) /\ b' = a'
            else fetches_after_lookup key a'.2 /\ fetches_after_lookup key b'.2
        | Null => fetches_after_lookup key a'.2 /\ fetches_after_lookup key b'.2
        end).
Proof.
  intros redis a b.
  assert (Hget : redis_get redis key w = (Ok Null, w)).
  { subst redis. cbn [redis_get upstash_redis]. unfold upstash_get. now rewrite Hmiss. }
  pose proof (upstash_setex_run readBack key _ (NonNull v) w2 Httl) as Hset.
  assert (Ha : a = (Ok (NonNull v),
                    (upstash_setex readBack key (default 3600 ttl) (NonNull v) w2).2,
                    [EvGet key; EvFetch; EvSetex key (default 3600 ttl) (NonNull v)])).
  { subst a.
    now rewrite (getCachedA_miss_fetched redis key fetcher ttl w w (NonNull v) w2
                   Hget Hfetch). }
  assert (Hb : b = a).
  { subst b. rewrite Ha, Hset.
    now rewrite (getCachedB_miss_stored redis key fetcher ttl w w (NonNull v) w2 _
                   Hget Hfetch Hset). }
  rewrite Hb, Ha. cbn [fst snd].
  split; [reflexivity|]. split; [reflexivity|]. split; [reflexivity|].
  intros seconds fetcher' ttl'.
  exact (getCached_after_setex readBack key (default 3600 ttl) seconds (NonNull v)
           fetcher' ttl' w2 Httl).
Qed.

Lemma getCached_populates_cache_witness :
  let redis := upstash_redis readBack_text in
  let fetcher : Fetcher (Timed string) string string := fun w => (Ok (NonNull "[]"), w) in
  let w := {| entries := ∅; clock := 0 |} in
  let a := ClientA.getCached redis "altares:all" fetcher None w in
  let b := ClientB.getCached redis "altares:all" fetcher None w in
  a.1.1 = Ok (NonNull "[]") /\ b = a
  /\ a.2 = [EvGet "altares:all"; EvFetch;
            EvSetex "altares:all" (default 3600 None) (NonNull "[]")]
  /\ (forall (seconds : Z) fetcher' ttl',
        let w' := elapse seconds a.1.2 in
        let a' := ClientA.getCached redis "altares:all" fetcher' ttl' w' in
        let b' := ClientB.getCached redis "altares:all" fetcher' ttl' w' in
        if seconds <? default 3600 None
        then a' = (Ok (NonNull "[]"), w', [EvGet "altares:all"]) /\ b' = a'
        else fetches_after_lookup "altares:all" a'.2
             /\ fetches_after_lookup "altares:all" b'.2).
Proof.
  intros redis fetcher w.
  apply (getCached_populates_cache readBack_text "altares:all" fetcher None w w "[]").
  - reflexivity.
  - reflexivity.
  - reflexivity.
Defined.

(** On a reachable cache, a key that is absent is fetched: the fetcher runs
    right after the lookup, and lines 1-77 return what it yields. *)
Lemma getCached_absent_key_fetches {V : Type} (key : string)
    (fetcher : Fetcher (Mem V) V string) (ttl : option Z) (w1 : Mem V) :
  store w1 !! key = None ->
  fetches_after_lookup key (ClientA.getCached mem_redis key fetcher ttl w1).2
  /\ fetches_after_lookup key (ClientB.getCached mem_redis key fetcher ttl w1).2
  /\ (forall data w2, fetcher w1 = (Ok data, w2) ->
        (ClientA.getCached mem_redis key fetcher ttl w1).1.1 = Ok data).
Proof.
  intros Hnone.
  assert (Hget : redis_get mem_redis key w1 = (Ok Null, w1)).
  { cbn. unfold mem_get. now rewrite Hnone. }
  destruct (getCached_miss_fetches mem_redis key fetcher ttl w1 w1 Hget) as [Ha Hb].
  split; [exact Ha|]. split; [exact Hb|].
  intros data w2 Hf.
  now rewrite (getCachedA_miss_fetched mem_redis key fetcher ttl w1 w1 data w2 Hget Hf).
Qed.

(** X3. After [deleteCache key], and after [invalidateCache] with a declared
    pattern that matches the key, the key is absent, so the next [getCached]
    runs the fetcher right after the lookup, and lines 1-77 return what the
    fetcher yields. *)
Theorem getCached_after_delete_fetches {V : Type} (key pattern : string)
    (fetcher : Fetcher (Mem V) V string) (ttl : option Z) (w : Mem V)
    (Hdeclared : In pattern CACHE_KEYS.PATTERNS.values)
    (Hmatch : glob pattern key = true) :
  let refetched := fun w1 : Mem V =>
    store w1 !! key = None
    /\ fetches_after_lookup key (ClientA.getCached mem_redis key fetcher ttl w1).2
    /\ fetches_after_lookup key (ClientB.getCached mem_redis key fetcher ttl w1).2
    /\ (forall data w2, fetcher w1 = (Ok data, w2) ->
          (ClientA.getCached mem_redis key fetcher ttl w1).1.1 = Ok data) in
  refetched (ClientA.deleteCache mem_redis key w).1.2
  /\ refetched (ClientA.invalidateCache mem_redis pattern w).1.2.
Proof.
  intros refetched. subst refetched. cbv beta.
  assert (Hdel : store (ClientA.deleteCache mem_redis key w).1.2 !! key = None).
  { rewrite deleteCache_mem_store. now rewrite decide_True. }
  assert (Hinv : store (ClientA.invalidateCache mem_redis pattern w).1.2 !! key = None).
  { rewrite invalidateCache_mem_store. now rewrite Hmatch. }
  split.
  - split; [exact Hdel|]. now apply getCached_absent_key_fetches.
  - split; [exact Hinv|]. now apply getCached_absent_key_fetches.
Qed.

Lemma getCached_after_delete_fetches_witness :
  let w := priced_cache in
  let key := CACHE_KEYS.PRECIO_CALCULATION "g3-a40-w25-1-" in
  let fetcher := steady_fetcher (NonNull "quote") in
  let refetched := fun w1 : Mem string =>
    store w1 !! key = None
    /\ fetches_after_lookup key (ClientA.getCached mem_redis key fetcher None w1).2
    /\ fetches_after_lookup key (ClientB.getCached mem_redis key fetcher None w1).2
    /\ (forall data w2, fetcher w1 = (Ok data, w2) ->
          (ClientA.getCached mem_redis key fetcher None w1).1.1 = Ok data) in
  refetched (ClientA.deleteCache mem_redis key w).1.2
  /\ refetched (ClientA.invalidateCache mem_redis CACHE_KEYS.PATTERNS.ALL_PRICING w).1.2.
Proof.
  intros w key fetcher.
  apply (getCached_after_delete_fetches key CACHE_KEYS.PATTERNS.ALL_PRICING
           fetcher None w).
  - right. right. left. reflexivity.
  - reflexivity.
Defined.

(** ** [client.ts]: the helpers against any Redis *)

Section AnyRedis.
Context {World Value Exn : Type}.
Variable redis : RedisClient World Value Exn.
Implicit Types (key pattern : string) (fetcher : Fetcher World Value Exn)
  (ttl : option Z) (w : World).

(** X4. [setCache] and [deleteCache] issue exactly one Redis command, with the
    default time-to-live of 3600 seconds when none is given, and report
    success to the caller whether or not the command succeeded. *)
Theorem setCache_deleteCache_fire_and_forget key (value : nullable Value) ttl w :
  ClientA.setCache redis key value ttl w
  = (Ok tt, (redis_setex redis key (default 3600 ttl) value w).2,
     [EvSetex key (default 3600 ttl) value])
  /\ ClientB.setCache redis key value ttl w = ClientA.setCache redis key value ttl w
  /\ ClientA.deleteCache redis key w
     = (Ok tt, (redis_del redis [key] w).2, [EvDel [key]])
  /\ ClientB.deleteCache redis key w = ClientA.deleteCache redis key w.
Proof.
  unfold ClientA.setCache, ClientA.deleteCache, try_catch, bind, call, ret,
    default_ttl.
  repeat split.
  - now destruct (redis_setex redis key (default 3600 ttl) value w) as [[[]|e] w1].
  - now destruct (redis_del redis [key] w) as [[n|e] w1].
Qed.

(** X5. [invalidateCache] lists the keys once; it issues no delete when the
    listing is empty or fails, and one delete of exactly the listed keys
    otherwise; in every case the caller is told it succeeded. *)
Theorem invalidateCache_commands pattern w :
  ClientA.invalidateCache redis pattern w
  = match redis_keys redis pattern w with
    | (Ok [], w1) => (Ok tt, w1, [EvKeys pattern])
    | (Ok (k :: ks), w1) =>
        (Ok tt, (redis_del redis (k :: ks) w1).2, [EvKeys pattern; EvDel (k :: ks)])
    | (Throw _, w1) => (Ok tt, w1, [EvKeys pattern])
    end.
Proof.
  unfold ClientA.invalidateCache, try_catch, bind, call, ret.
  destruct (redis_keys redis pattern w) as [[[|k ks]|e] w1]; try reflexivity.
  cbn [length Nat.ltb Nat.leb].
  now destruct (redis_del redis (k :: ks) w1) as [[n|e] w2].
Qed.

(** The traces [getCached] can leave, version by version. *)
Lemma getCachedA_traces key fetcher ttl w :
  let t := (ClientA.getCached redis key fetcher ttl w).2 in
  t = [EvGet key] \/ t = [EvGet key; EvFetch] \/ t = [EvGet key; EvFetch; EvFetch]
  \/ exists data, t = [EvGet key; EvFetch; EvSetex key (default default_ttl ttl) data].
Proof.
  cbv zeta.
  destruct (redis_get redis key w) as [[[|v]|e0] w1] eqn:Hget.
  - destruct (fetcher w1) as [[data|e1] w2] eqn:Hf.
    + rewrite (getCachedA_miss_fetched _ _ _ _ _ _ _ _ Hget Hf). cbn. eauto 6.
    + rewrite (getCachedA_miss_fetch_throws _ _ _ _ _ _ _ _ Hget Hf). cbn. eauto.
  - rewrite (getCachedA_hit _ _ fetcher ttl _ _ _ Hget). cbn. eauto.
  - rewrite (getCachedA_get_throws _ _ fetcher ttl _ _ _ Hget). cbn. eauto.
Qed.

Lemma getCachedB_traces key fetcher ttl w :
  let t := (ClientB.getCached redis key fetcher ttl w).2 in
  t = [EvGet key] \/ t = [EvGet key; EvFetch] \/ t = [EvGet key; EvFetch; EvFetch]
  \/ exists data,
       t = [EvGet key; EvFetch; EvSetex key (default default_ttl ttl) data]
       \/ t = [EvGet key; EvFetch; EvSetex key (default default_ttl ttl) data; EvFetch].
Proof.
  cbv zeta.
  destruct (redis_get redis key w) as [[[|v]|e0] w1] eqn:Hget.
  - destruct (fetcher w1) as [[data|e1] w2] eqn:Hf.
    + destruct (redis_setex redis key (default default_ttl ttl) data w2)
        as [[[]|e2] w3] eqn:Hset.
      * rewrite (getCachedB_miss_stored _ _ _ _ _ _ _ _ _ Hget Hf Hset). cbn. eauto 7.
      * rewrite (getCachedB_miss_write_throws _ _ _ _ _ _ _ _ _ _ Hget Hf Hset).
        cbn. eauto 7.
    + rewrite (getCachedB_miss_fetch_throws _ _ _ _ _ _ _ _ Hget Hf). cbn. eauto.
  - rewrite (getCachedB_hit _ _ fetcher ttl _ _ _ Hget). cbn. eauto.
  - rewrite (getCachedB_get_throws _ _ fetcher ttl _ _ _ Hget). cbn. eauto.
Qed.

(** X6. Whatever Redis and the fetcher do, one [getCached] makes exactly one
    lookup, first, then at most two fetcher calls and at most one write; it
    touches no key but its own and never lists or deletes keys. *)
Theorem getCached_call_discipline key fetcher ttl w :
  let ta := (ClientA.getCached redis key fetcher ttl w).2 in
  let tb := (ClientB.getCached redis key fetcher ttl w).2 in
  (exists rest, ta = EvGet key :: rest
      /\ Forall (fun e => match e with EvGet _ => False | _ => True end) rest)
  /\ (exists rest, tb = EvGet key :: rest
      /\ Forall (fun e => match e with EvGet _ => False | _ => True end) rest)
  /\ (fetch_count ta <= 2)%nat /\ (fetch_count tb <= 2)%nat
  /\ (write_count ta <= 1)%nat /\ (write_count tb <= 1)%nat
  /\ touches_only key ta /\ touches_only key tb.
Proof.
  intros ta tb. subst ta tb. unfold touches_only.
  pose proof (getCachedA_traces key fetcher ttl w) as Ha.
  pose proof (getCachedB_traces key fetcher ttl w) as Hb.
  cbv zeta in Ha, Hb.
  destruct Ha as [->|[->|[->|[d ->]]]];
    destruct Hb as [->|[->|[->|[d2 [-> | ->]]]]];
    cbn; repeat split; eauto 10 using Forall_nil, Forall_cons; lia.
Qed.

(** X7. Lines 1-77: once the lookup has yielded null and the fetcher a value,
    that value is the result after exactly one fetch and one write attempt,
    whether the write succeeds or throws. *)
Theorem getCachedA_absorbs_write_failure key fetcher ttl w w1 w2
    (data : nullable Value)
    (Hget : redis_get redis key w = (Ok Null, w1))
    (Hfetch : fetcher w1 = (Ok data, w2)) :
  let a := ClientA.getCached redis key fetcher ttl w in
  a.1.1 = Ok data
  /\ a.2 = [EvGet key; EvFetch; EvSetex key (default 3600 ttl) data]
  /\ fetch_count a.2 = 1%nat
  /\ a.1.2 = (redis_setex redis key (default 3600 ttl) data w2).2.
Proof.
  intros a. subst a.
  rewrite (getCachedA_miss_fetched redis key fetcher ttl w w1 data w2 Hget Hfetch).
  repeat split.
Qed.

(** X8. Lines 79-146: when the write throws after a successful fetch, the
    fetcher is run a second time and the second outcome is the result, so a
    fetch that succeeded can still end in a failure. *)
Theorem getCachedB_refetches_after_write_failure key fetcher ttl w w1 w2 w3
    (data : nullable Value) (e : Exn)
    (Hget : redis_get redis key w = (Ok Null, w1))
    (Hfetch : fetcher w1 = (Ok data, w2))
    (Hset : redis_setex redis key (default 3600 ttl) data w2 = (Throw e, w3)) :
  let b := ClientB.getCached redis key fetcher ttl w in
  b.1.1 = (fetcher w3).1 /\ b.1.2 = (fetcher w3).2
  /\ b.2 = [EvGet key; EvFetch; EvSetex key (default 3600 ttl) data; EvFetch]
  /\ fetch_count b.2 = 2%nat.
Proof.
  intros b. subst b.
  rewrite (getCachedB_miss_write_throws redis key fetcher ttl w w1 data w2 e w3
             Hget Hfetch Hset).
  repeat split.
Qed.

(** X9. The two versions of [getCached] give the same result, final world and
    trace on every run whose write, if the run reaches it, does not throw. *)
Theorem getCached_versions_agree key fetcher ttl w
    (Hset : forall w1 (data : nullable Value) w2,
        redis_get redis key w = (Ok Null, w1) ->
        fetcher w1 = (Ok data, w2) ->
        (redis_setex redis key (default 3600 ttl) data w2).1 = Ok tt) :
  ClientB.getCached redis key fetcher ttl w = ClientA.getCached redis key fetcher ttl w.
Proof.
  destruct (redis_get redis key w) as [[[|v]|e0] w1] eqn:Hget.
  - destruct (fetcher w1) as [[data|e1] w2] eqn:Hf.
    + pose proof (Hset w1 data w2 eq_refl Hf) as Hs.
      destruct (redis_setex redis key (default 3600 ttl) data w2) as [r w3] eqn:Hrun.
      cbn [fst] in Hs. subst r.
      rewrite (getCachedA_miss_fetched _ _ _ _ _ _ _ _ Hget Hf).
      rewrite (getCachedB_miss_stored _ _ _ _ _ _ _ _ _ Hget Hf Hrun).
      unfold default_ttl. now rewrite Hrun.
    + rewrite (getCachedA_miss_fetch_throws _ _ _ _ _ _ _ _ Hget Hf).
      now rewrite (getCachedB_miss_fetch_throws _ _ _ _ _ _ _ _ Hget Hf).
  - rewrite (getCachedA_hit _ _ fetcher ttl _ _ _ Hget).
    now rewrite (getCachedB_hit _ _ fetcher ttl _ _ _ Hget).
  - rewrite (getCachedA_get_throws _ _ fetcher ttl _ _ _ Hget).
    now rewrite (getCachedB_get_throws _ _ fetcher ttl _ _ _ Hget).
Qed.

End AnyRedis.

Lemma getCachedA_absorbs_write_failure_witness :
  let w := {| store := ∅; fetched := 0 |} in
  let a := ClientA.getCached readonly_redis "altares:all"
             (steady_fetcher (NonNull "[]")) None w in
  a.1.1 = Ok (NonNull "[]")
  /\ a.2 = [EvGet "altares:all"; EvFetch; EvSetex "altares:all" (default 3600 None) (NonNull "[]")]
  /\ fetch_count a.2 = 1%nat
  /\ a.1.2 = (redis_setex readonly_redis "altares:all" (default 3600 None)
                (NonNull "[]") {| store := ∅; fetched := 1 |}).2.
Proof.
  intros w.
  apply (getCachedA_absorbs_write_failure (@readonly_redis string) "altares:all"
           (steady_fetcher (NonNull "[]")) None w w {| store := ∅; fetched := 1 |}).
  - reflexivity.
  - reflexivity.
Defined.

Lemma getCachedB_refetches_after_write_failure_witness :
  let w := {| store := ∅; fetched := 0 |} in
  let fetcher := steady_fetcher (NonNull "[]") in
  let b := ClientB.getCached readonly_redis "altares:all" fetcher None w in
  b.1.1 = (fetcher {| store := ∅; fetched := 1 |}).1
  /\ b.1.2 = (fetcher {| store := ∅; fetched := 1 |}).2
  /\ b.2 = [EvGet "altares:all"; EvFetch;
            EvSetex "altares:all" (default 3600 None) (NonNull "[]"); EvFetch]
  /\ fetch_count b.2 = 2%nat.
Proof.
  intros w fetcher.
  apply (getCachedB_refetches_after_write_failure (@readonly_redis string)
           "altares:all" fetcher None w w {| store := ∅; fetched := 1 |}
           {| store := ∅; fetched := 1 |} (NonNull "[]") "ECONNREFUSED").
  - reflexivity.
  - reflexivity.
  - reflexivity.
Defined.

Lemma getCached_versions_agree_witness :
  ClientB.getCached mem_redis "altares:all" (steady_fetcher (NonNull "[]")) None
    {| store := ∅; fetched := 0 |}
  = ClientA.getCached mem_redis "altares:all" (steady_fetcher (NonNull "[]")) None
      {| store := ∅; fetched := 0 |}.
Proof.
  apply (getCached_versions_agree (@mem_redis string)).
  intros w1 data w2 Hget Hfetch. reflexivity.
Defined.

(** ** [cache-keys.ts]: keys, patterns and the price-calculation hash *)

Lemma string_app_assoc (a b c : string) : (a +:+ b) +:+ c = a +:+ (b +:+ c).
Proof.
  induction a as [|x a IH]; [reflexivity|].
  change (String x ((a +:+ b) +:+ c) = String x (a +:+ (b +:+ c))). now f_equal.
Qed.

Lemma string_app_inv_head (s a b : string) : s +:+ a = s +:+ b -> a = b.
Proof.
  induction s as [|x s IH]; [auto|].
  change (String x (s +:+ a) = String x (s +:+ b) -> a = b). intros [= H]. auto.
Qed.

Lemma string_app_inj_length (a b x y : string) :
  String.length a = String.length b -> a +:+ x = b +:+ y -> a = b /\ x = y.
Proof.
  revert b. induction a as [|c a IH]; intros [|d b] Hlen Happ;
    try discriminate Hlen.
  - change (x = y) in Happ. auto.
  - change (String c (a +:+ x) = String d (b +:+ y)) in Happ.
    injection Hlen as Hlen. injection Happ as -> Happ.
    destruct (IH b Hlen Happ) as [-> ->]. auto.
Qed.

(** A pattern that starts with a literal character only matches keys that
    start with it. *)
Lemma glob_literal_head (c : ascii) (p k : string) :
  Ascii.eqb c "*" = false -> glob (String c p) k = true ->
  exists s, k = String c s /\ glob p s = true.
Proof.
  intros Hc. cbn. rewrite Hc. destruct k as [|d s]; [discriminate|].
  intros [->%Ascii.eqb_eq Hg]%andb_true_iff. eauto.
Qed.

(** X10. The list keys of the altar and configuration namespaces match the
    pattern declared for their namespace, and no key at all matches two of the
    declared patterns: invalidating one namespace deletes nothing of
    another. *)
Theorem declared_patterns_partition :
  (forall tipo : string,
      glob CACHE_KEYS.PATTERNS.ALL_ALTARES CACHE_KEYS.ALTARES_ALL = true
      /\ glob CACHE_KEYS.PATTERNS.ALL_ALTARES (CACHE_KEYS.ALTARES_BY_TYPE tipo) = true
      /\ glob CACHE_KEYS.PATTERNS.ALL_CONFIGURACIONES CACHE_KEYS.CONFIGURACIONES_ALL = true
      /\ glob CACHE_KEYS.PATTERNS.ALL_CONFIGURACIONES
           (CACHE_KEYS.CONFIGURACIONES_BY_TYPE tipo) = true
      /\ glob CACHE_KEYS.PATTERNS.ALL_CONFIGURACIONES CACHE_KEYS.GROSOR_OPTIONS = true
      /\ glob CACHE_KEYS.PATTERNS.ALL_CONFIGURACIONES CACHE_KEYS.ALTURA_OPTIONS = true
      /\ glob CACHE_KEYS.PATTERNS.ALL_CONFIGURACIONES CACHE_KEYS.ANCHURA_OPTIONS = true)
  /\ (forall (k p1 p2 : string),
        In p1 CACHE_KEYS.PATTERNS.values -> In p2 CACHE_KEYS.PATTERNS.values ->
        glob p1 k = true -> glob p2 k = true -> p1 = p2).
Proof.
  split.
  - intros tipo. repeat split; try reflexivity.
    + unfold CACHE_KEYS.PATTERNS.ALL_ALTARES, CACHE_KEYS.ALTARES_BY_TYPE.
      cbn [String.append]. repeat (rewrite glob_prefix_star by reflexivity).
      apply glob_star_any.
    + unfold CACHE_KEYS.PATTERNS.ALL_CONFIGURACIONES, CACHE_KEYS.CONFIGURACIONES_BY_TYPE.
      cbn [String.append]. repeat (rewrite glob_prefix_star by reflexivity).
      apply glob_star_any.
  - intros k p1 p2 H1 H2 G1 G2.
    cbn in H1, H2.
    destruct H1 as [<-|[<-|[<-|[<-|[]]]]]; destruct H2 as [<-|[<-|[<-|[<-|[]]]]];
      try reflexivity; exfalso;
      apply glob_literal_head in G1 as (s1 & -> & _); try reflexivity;
      apply glob_literal_head in G2 as (s2 & [=] & _); reflexivity.
Qed.

(** X11. The keys of single altars, by id and by slug, match none of the
    declared patterns: a bulk invalidation with any of them, [ALL_ALTARES]
    included, leaves every cached altar detail in place. *)
Theorem altar_detail_keys_survive_bulk_invalidation
    (V : Type) (id slug : string) (w : Mem V) :
  Forall (fun pattern =>
            glob pattern (CACHE_KEYS.ALTAR_DETAIL id) = false
            /\ glob pattern (CACHE_KEYS.ALTAR_BY_SLUG slug) = false
            /\ store (ClientA.invalidateCache mem_redis pattern w).1.2
                 !! CACHE_KEYS.ALTAR_DETAIL id
               = store w !! CACHE_KEYS.ALTAR_DETAIL id
            /\ store (ClientA.invalidateCache mem_redis pattern w).1.2
                 !! CACHE_KEYS.ALTAR_BY_SLUG slug
               = store w !! CACHE_KEYS.ALTAR_BY_SLUG slug)
    CACHE_KEYS.PATTERNS.values.
Proof.
  assert (H : Forall (fun pattern =>
                        glob pattern (CACHE_KEYS.ALTAR_DETAIL id) = false
                        /\ glob pattern (CACHE_KEYS.ALTAR_BY_SLUG slug) = false)
                CACHE_KEYS.PATTERNS.values).
  { repeat constructor. }
  eapply Forall_impl; [exact H|]. intros pattern [Hd Hs]. cbn beta.
  rewrite !invalidateCache_mem_store, Hd, Hs. auto.
Qed.

(** X22. The keys of the pricing rules and of the discount rules match none
    of the declared patterns: a bulk invalidation with any of them,
    [ALL_PRICING] included, leaves the cached rule sets in place. *)
Theorem rule_keys_survive_bulk_invalidation (V : Type) (w : Mem V) :
  Forall (fun pattern =>
            glob pattern CACHE_KEYS.REGLAS_PRECIO = false
            /\ glob pattern CACHE_KEYS.REGLAS_DESCUENTO = false
            /\ store (ClientA.invalidateCache mem_redis pattern w).1.2
                 !! CACHE_KEYS.REGLAS_PRECIO
               = store w !! CACHE_KEYS.REGLAS_PRECIO
            /\ store (ClientA.invalidateCache mem_redis pattern w).1.2
                 !! CACHE_KEYS.REGLAS_DESCUENTO
               = store w !! CACHE_KEYS.REGLAS_DESCUENTO)
    CACHE_KEYS.PATTERNS.values.
Proof.
  assert (H : Forall (fun pattern =>
                        glob pattern CACHE_KEYS.REGLAS_PRECIO = false
                        /\ glob pattern CACHE_KEYS.REGLAS_DESCUENTO = false)
                CACHE_KEYS.PATTERNS.values).
  { repeat constructor. }
  eapply Forall_impl; [exact H|]. intros pattern [Hp Hd]. cbn beta.
  rewrite !invalidateCache_mem_store, Hp, Hd. auto.
Qed.

(** X23. [ALL_PRICING] matches the key of every computed quote and
    [ALL_EXTRAS] the keys of the extra items: against a reachable cache,
    [invalidateCache] with the pattern leaves none of them cached. *)
Theorem quote_and_extra_keys_invalidated (V : Type) (w : Mem V) (hash tipo : string) :
  store (ClientA.invalidateCache mem_redis CACHE_KEYS.PATTERNS.ALL_PRICING w).1.2
    !! CACHE_KEYS.PRECIO_CALCULATION hash = None
  /\ store (ClientA.invalidateCache mem_redis CACHE_KEYS.PATTERNS.ALL_EXTRAS w).1.2
       !! CACHE_KEYS.ITEMS_EXTRA = None
  /\ store (ClientA.invalidateCache mem_redis CACHE_KEYS.PATTERNS.ALL_EXTRAS w).1.2
       !! CACHE_KEYS.ITEMS_EXTRA_BY_TYPE tipo = None.
Proof.
  rewrite !invalidateCache_mem_store.
  rewrite quote_keys_match_ALL_PRICING.
  destruct (extra_keys_match_ALL_EXTRAS tipo) as [-> ->]. auto.
Qed.

(** X12. Each key generator gives different keys to different arguments, and
    no generated key equals the fixed list key of its namespace; but the keys
    by id and by slug share the prefix [altar:], so they coincide exactly
    when the id is the text [slug:] followed by the slug. *)
Theorem cache_key_generators_separate :
  Inj (=) (=) CACHE_KEYS.ALTARES_BY_TYPE
  /\ Inj (=) (=) CACHE_KEYS.ALTAR_DETAIL
  /\ Inj (=) (=) CACHE_KEYS.ALTAR_BY_SLUG
  /\ Inj (=) (=) CACHE_KEYS.CONFIGURACIONES_BY_TYPE
  /\ Inj (=) (=) CACHE_KEYS.PRECIO_CALCULATION
  /\ Inj (=) (=) CACHE_KEYS.ITEMS_EXTRA_BY_TYPE
  /\ (forall tipo,
        CACHE_KEYS.ALTARES_BY_TYPE tipo <> CACHE_KEYS.ALTARES_ALL
        /\ CACHE_KEYS.CONFIGURACIONES_BY_TYPE tipo <> CACHE_KEYS.CONFIGURACIONES_ALL
        /\ CACHE_KEYS.CONFIGURACIONES_BY_TYPE tipo <> CACHE_KEYS.GROSOR_OPTIONS
        /\ CACHE_KEYS.CONFIGURACIONES_BY_TYPE tipo <> CACHE_KEYS.ALTURA_OPTIONS
        /\ CACHE_KEYS.CONFIGURACIONES_BY_TYPE tipo <> CACHE_KEYS.ANCHURA_OPTIONS
        /\ CACHE_KEYS.ITEMS_EXTRA_BY_TYPE tipo <> CACHE_KEYS.ITEMS_EXTRA)
  /\ (forall id slug,
        CACHE_KEYS.ALTAR_DETAIL id = CACHE_KEYS.ALTAR_BY_SLUG slug
        <-> id = "slug:" +:+ slug).
Proof.
  repeat split; try (intros a b H; exact (string_app_inv_head _ a b H));
    try discriminate.
  - intros H. exact (string_app_inv_head "altar:" id ("slug:" +:+ slug) H).
  - intros ->. reflexivity.
Qed.

(** X13. When the thickness, height and width identifiers have a fixed length,
    as UUIDs do, two requests with the same key have the same three
    identifiers and the same paint flag. *)
Theorem generatePriceCalcHash_separates_ids
    (localeCompare : string -> string -> Z) (p1 p2 : PriceCalcParams)
    (Hg : String.length (grosorId p1) = String.length (grosorId p2))
    (Hh : String.length (alturaId p1) = String.length (alturaId p2))
    (Ha : String.length (anchuraId p1) = String.length (anchuraId p2))
    (Hkey : generatePriceCalcHash localeCompare p1
            = generatePriceCalcHash localeCompare p2) :
  grosorId p1 = grosorId p2 /\ alturaId p1 = alturaId p2
  /\ anchuraId p1 = anchuraId p2 /\ pintado p1 = pintado p2.
Proof.
  unfold generatePriceCalcHash in Hkey.
  apply string_app_inj_length in Hkey as [Eg Hkey]; [|exact Hg].
  apply (string_app_inv_head "-") in Hkey.
  apply string_app_inj_length in Hkey as [Eh Hkey]; [|exact Hh].
  apply (string_app_inv_head "-") in Hkey.
  apply string_app_inj_length in Hkey as [Ea Hkey]; [|exact Ha].
  apply (string_app_inv_head "-") in Hkey.
  repeat split; try assumption.
  destruct (pintado p1), (pintado p2); try reflexivity;
    apply string_app_inj_length in Hkey as [Hflag _]; try reflexivity;
    discriminate Hflag.
Qed.

Lemma generatePriceCalcHash_separates_ids_witness :
  grosorId (calc_params None) = grosorId (calc_params (Some []))
  /\ alturaId (calc_params None) = alturaId (calc_params (Some []))
  /\ anchuraId (calc_params None) = anchuraId (calc_params (Some []))
  /\ pintado (calc_params None) = pintado (calc_params (Some [])).
Proof.
  apply (generatePriceCalcHash_separates_ids codeCompare
           (calc_params None) (calc_params (Some []))); reflexivity.
Defined.

(** X14. The fields of the key are joined with [-] and not escaped: moving a
    [-] from the end of the thickness identifier to the start of the height
    identifier, or from the height to the width, leaves the key unchanged. *)
Theorem generatePriceCalcHash_separator_collision
    (localeCompare : string -> string -> Z) (g x h a : string) (p : bool)
    (es : option (list Extra)) :
  generatePriceCalcHash localeCompare
    {| grosorId := g +:+ "-" +:+ x; alturaId := h; anchuraId := a;
       pintado := p; extras := es |}
  = generatePriceCalcHash localeCompare
      {| grosorId := g; alturaId := x +:+ "-" +:+ h; anchuraId := a;
         pintado := p; extras := es |}
  /\ generatePriceCalcHash localeCompare
       {| grosorId := g; alturaId := h +:+ "-" +:+ x; anchuraId := a;
          pintado := p; extras := es |}
     = generatePriceCalcHash localeCompare
         {| grosorId := g; alturaId := h; anchuraId := x +:+ "-" +:+ a;
            pintado := p; extras := es |}.
Proof.
  unfold generatePriceCalcHash. cbn [grosorId alturaId anchuraId pintado extras].
  split.
  - rewrite !string_app_assoc. reflexivity.
  - rewrite !string_app_assoc. reflexivity.
Qed.

(** ** Order numbers: [generate_numero_pedido] and [set_numero_pedido] *)

(** A number below [10 ^ k] that has [k] digits prints as those digits. *)
Lemma pretty_go_digits (k : nat) (x : N) (s : string) :
  (x < 10 ^ N.of_nat k)%N -> (10 ^ N.of_nat k <= 10 * x \/ x = 0 /\ k = O)%N ->
  pretty_N_go x s = digits_of k x s.
Proof.
  revert x s. induction k as [|k IH]; intros x s Hlt Hge.
  - cbn in Hlt. assert (x = 0%N) as -> by lia. reflexivity.
  - assert (Hpos : (0 < x)%N).
    { destruct Hge as [Hge|[_ Hk]]; [|discriminate Hk].
      pose proof (N.pow_nonzero 10 (N.of_nat (S k))). lia. }
    rewrite pretty_N_go_step by exact Hpos. cbn [digits_of].
    rewrite Nat2N.inj_succ, N.pow_succ_r' in Hlt, Hge.
    apply IH.
    + apply N.Div0.div_lt_upper_bound. lia.
    + destruct k as [|k].
      * right. split; [|reflexivity]. cbn in Hlt. apply N.div_small. lia.
      * left. rewrite Nat2N.inj_succ, N.pow_succ_r' in *.
        destruct Hge as [Hge|[_ Hk]]; [|discriminate Hk].
        assert (10 ^ N.of_nat k <= x / 10)%N; [|lia].
        apply N.div_le_lower_bound; lia.
Qed.

(** Up to 9999 the padded text is the four digits of the number. *)
Lemma LPAD_four_digits (x : N) :
  (1 <= x <= 9999)%N -> LPAD (pretty_N_go x "") 4 "0" = digits_of 4 x "".
Proof.
  intros Hx.
  destruct (N.lt_ge_cases x 10) as [H1|H1];
    [|destruct (N.lt_ge_cases x 100) as [H2|H2];
      [|destruct (N.lt_ge_cases x 1000) as [H3|H3]]].
  - rewrite (pretty_go_digits 1 x "") by (cbn; lia).
    cbn [digits_of]. replace (x / 10)%N with 0%N by (symmetry; apply N.div_small; lia).
    reflexivity.
  - rewrite (pretty_go_digits 2 x "") by (cbn; lia).
    cbn [digits_of].
    replace (x / 10 / 10)%N with 0%N
      by (symmetry; apply N.div_small, N.Div0.div_lt_upper_bound; lia).
    reflexivity.
  - rewrite (pretty_go_digits 3 x "") by (cbn; lia).
    cbn [digits_of].
    replace (x / 10 / 10 / 10)%N with 0%N
      by (symmetry; apply N.div_small;
          do 2 apply N.Div0.div_lt_upper_bound; lia).
    reflexivity.
  - rewrite (pretty_go_digits 4 x "") by (cbn; lia). reflexivity.
Qed.

(** From 10000 to 99999 the text is cut to the first four of five digits,
    which are the digits of the tenth of the number. *)
Lemma LPAD_five_digits (x : N) :
  (10000 <= x <= 99999)%N -> LPAD (pretty_N_go x "") 4 "0" = digits_of 4 (x / 10) "".
Proof.
  intros Hx. rewrite (pretty_go_digits 5 x "") by (cbn; lia). reflexivity.
Qed.

Lemma digits_of_four_inj (x y : N) :
  (x <= 9999)%N -> (y <= 9999)%N -> digits_of 4 x "" = digits_of 4 y "" -> x = y.
Proof.
  intros Hx Hy H. cbn [digits_of] in H. injection H as H3 H2 H1 H0.
  apply pretty_N_char_inj in H0, H1, H2, H3; try (apply N.mod_lt; lia).
  assert (Hq : forall z : N, z = (10 * (z / 10) + z mod 10)%N)
    by (intros z; apply N.div_mod; lia).
  assert (Hx3 : (x / 10 / 10 / 10 < 10)%N)
    by (do 3 apply N.Div0.div_lt_upper_bound; lia).
  assert (Hy3 : (y / 10 / 10 / 10 < 10)%N)
    by (do 3 apply N.Div0.div_lt_upper_bound; lia).
  rewrite (N.mod_small _ _ Hx3), (N.mod_small _ _ Hy3) in H3.
  rewrite (Hq x), (Hq y), (Hq (x / 10)%N), (Hq (y / 10)%N),
    (Hq (x / 10 / 10)%N), (Hq (y / 10 / 10)%N).
  rewrite H0, H1, H2, H3. reflexivity.
Qed.

Lemma pretty_Z_pos (n : Z) : 0 < n -> pretty n = pretty_N_go (Z.to_N n) "".
Proof. destruct n as [|p|p]; try lia. intros _. reflexivity. Qed.

(** X15. For rows inserted without an order number (NULL or the empty text),
    the trigger's number is the prefix [ALT-], the day, [-] and the sequence
    value in four digits; on one day, different sequence values from 1 to 9999
    give different order numbers. *)
Theorem order_numbers_distinct_up_to_9999 (today : string)
    (numero_pedido : option string) (s1 s2 : Z)
    (Hmissing : numero_pedido = None \/ numero_pedido = Some "")
    (H1 : 1 <= s1 <= 9999) (H2 : 1 <= s2 <= 9999) :
  set_numero_pedido today numero_pedido s1
  = ("ALT-" +:+ today +:+ "-" +:+ digits_of 4 (Z.to_N s1) "", s1 + 1)
  /\ ((set_numero_pedido today numero_pedido s1).1
      = (set_numero_pedido today numero_pedido s2).1 -> s1 = s2).
Proof.
  assert (Hgen : forall s, 1 <= s <= 9999 ->
            set_numero_pedido today numero_pedido s
            = ("ALT-" +:+ today +:+ "-" +:+ digits_of 4 (Z.to_N s) "", s + 1)).
  { intros s Hs.
    assert (E : set_numero_pedido today numero_pedido s
                = generate_numero_pedido today s)
      by (destruct Hmissing as [->| ->]; reflexivity).
    rewrite E. unfold generate_numero_pedido, NEXTVAL.
    rewrite pretty_Z_pos by lia. rewrite LPAD_four_digits by lia. reflexivity. }
  split; [now apply Hgen|].
  rewrite (Hgen s1 H1), (Hgen s2 H2). cbn [fst].
  intros H. apply (string_app_inv_head "ALT-"), (string_app_inv_head today),
    (string_app_inv_head "-") in H.
  apply digits_of_four_inj in H; lia.
Qed.

Lemma order_numbers_distinct_up_to_9999_witness :
  set_numero_pedido "20250121" None 7
  = ("ALT-" +:+ "20250121" +:+ "-" +:+ digits_of 4 (Z.to_N 7) "", 7 + 1)
  /\ ((set_numero_pedido "20250121" None 7).1
      = (set_numero_pedido "20250121" None 7).1 -> 7 = 7).
Proof.
  apply (order_numbers_distinct_up_to_9999 "20250121" None 7 7); [now left|lia|lia].
Defined.

Example first_order_number :
  set_numero_pedido "20250121" (Some "") pedidos_seq_start = ("ALT-20250121-0001", 2)
  /\ set_numero_pedido "20250121" (Some "ALT-X") 5 = ("ALT-X", 5).
Proof. vm_compute. split; reflexivity. Qed.

(** X16. The sequence is never reset and [LPAD] cuts a longer text on the
    right: from 10000 to 99999 the order number carries the first four digits
    only, so it repeats the number of the sequence value a tenth as large, and
    ten consecutive sequence values share one order number. *)
Theorem order_numbers_repeat_from_10000 (today : string) (n : Z)
    (Hn : 10000 <= n <= 99999) :
  (generate_numero_pedido today n).1 = (generate_numero_pedido today (n / 10)).1
  /\ (forall m, 10000 <= m <= 99999 -> m / 10 = n / 10 ->
        (generate_numero_pedido today m).1 = (generate_numero_pedido today n).1).
Proof.
  assert (Hgen : forall m, 10000 <= m <= 99999 ->
            (generate_numero_pedido today m).1
            = "ALT-" +:+ today +:+ "-" +:+ digits_of 4 (Z.to_N (m / 10)) "").
  { intros m Hm. unfold generate_numero_pedido, NEXTVAL. cbn [fst].
    rewrite pretty_Z_pos by lia. rewrite LPAD_five_digits by lia.
    do 4 f_equal. rewrite Z2N.inj_div by lia. reflexivity. }
  split.
  - rewrite (Hgen n Hn). unfold generate_numero_pedido, NEXTVAL. cbn [fst].
    assert (1000 <= n / 10 <= 9999).
    { split; [apply Z.div_le_lower_bound; lia|].
      apply Z.lt_succ_r, Z.div_lt_upper_bound; lia. }
    rewrite pretty_Z_pos by lia. rewrite LPAD_four_digits by lia. reflexivity.
  - intros m Hm E. rewrite (Hgen n Hn), (Hgen m Hm), E. reflexivity.
Qed.

Lemma order_numbers_repeat_from_10000_witness :
  (generate_numero_pedido "20250121" 10007).1
  = (generate_numero_pedido "20250121" (10007 / 10)).1
  /\ (forall m, 10000 <= m <= 99999 -> m / 10 = 10007 / 10 ->
        (generate_numero_pedido "20250121" m).1
        = (generate_numero_pedido "20250121" 10007).1).
Proof. apply (order_numbers_repeat_from_10000 "20250121" 10007). lia. Defined.

Example order_number_10007_is_1000 :
  (generate_numero_pedido "20250121" 10007).1 = "ALT-20250121-1000"
  /\ (generate_numero_pedido "20250121" 1000).1 = "ALT-20250121-1000".
Proof. vm_compute. split; reflexivity. Qed.

(** ** The catalog page *)

Lemma counts_fold (altares : list Altar) (c0 : Counts) (t : ModelType) :
  count_of (fold_left (fun result altar => increment result (modelo_tipo altar))
              altares c0) (of_type t)
  = (count_of c0 (of_type t) + length (filteredAltares altares (of_type t)))%nat
  /\ count_all (fold_left (fun result altar => increment result (modelo_tipo altar))
                  altares c0) = count_all c0.
Proof.
  revert c0. induction altares as [|a altares IH]; intros c0; cbn [fold_left].
  - cbn. split; [lia|reflexivity].
  - destruct (IH (increment c0 (modelo_tipo a))) as [IH1 IH2].
    rewrite IH1, IH2. cbn [filteredAltares List.filter].
    case_bool_decide as Hdec; destruct (modelo_tipo a), t, c0;
      try congruence; cbn; (split; [lia|reflexivity]).
Qed.

(** X17. The count on each filter button is the number of altars the grid
    lists when that filter is selected; the three type counts add up to the
    count of "all"; and a button carries a badge exactly when selecting it
    does not lead to the empty state. *)
Theorem counts_match_filtered_list (altares : list Altar) (v : FilterType) :
  count_of (counts altares) v = length (filteredAltares altares v)
  /\ (count_seres_queridos (counts altares) + count_bebes_no_nacidos (counts altares)
      + count_mascotas (counts altares))%nat = count_all (counts altares)
  /\ (badge_shown (Some (counts altares)) v = true
      <-> AltarGrid (filteredAltares altares v) false <> EmptyState).
Proof.
  assert (Hcount : forall v', count_of (counts altares) v'
                              = length (filteredAltares altares v')).
  { intros [|t]; unfold counts.
    - cbn [count_of filteredAltares]. now rewrite (proj2 (counts_fold altares _ seres_queridos)).
    - rewrite (proj1 (counts_fold altares _ t)). now destruct t. }
  split; [apply Hcount|]. split.
  - pose proof (Hcount (of_type seres_queridos)) as Hs.
    pose proof (Hcount (of_type bebes_no_nacidos)) as Hb.
    pose proof (Hcount (of_type mascotas)) as Hm.
    pose proof (Hcount all_types) as Ha.
    cbn [count_of] in Hs, Hb, Hm, Ha. rewrite Hs, Hb, Hm, Ha.
    cbn [filteredAltares]. clear.
    induction altares as [|a altares IH]; [reflexivity|].
    cbn [List.filter]. repeat case_bool_decide; destruct (modelo_tipo a);
      try congruence; cbn [length]; lia.
  - unfold badge_shown, AltarGrid. rewrite Hcount.
    destruct (filteredAltares altares v) as [|a l]; cbn.
    + split; [discriminate|congruence].
    + split; [discriminate|reflexivity].
Qed.

(** ** [formatRelativeTime] *)

Lemma formatRelativeTime_natural {Text : Type} (rtf_format : Z -> TimeUnit -> Text)
    (nowMs dateMs : Z) :
  formatRelativeTime rtf_format nowMs dateMs
  = rtf_format (formatRelativeTime pair nowMs dateMs).1
      (formatRelativeTime pair nowMs dateMs).2.
Proof.
  unfold formatRelativeTime.
  repeat (match goal with |- context [if ?b then _ else _] => destruct b end);
    reflexivity.
Qed.

(** X18. For a date that is not in the future, the formatter is handed a
    count [-q] and a unit such that [q] units fit in the elapsed seconds and
    [q + 1] do not; seconds run up to 59, minutes to 59, hours to 23, days to
    29 and months to 12, a month counting 30 days and a year 365. *)
Theorem formatRelativeTime_past {Text : Type} (rtf_format : Z -> TimeUnit -> Text)
    (nowMs dateMs : Z) (Hpast : dateMs <= nowMs) :
  exists q u,
    formatRelativeTime pair nowMs dateMs = (- q, u)
    /\ formatRelativeTime rtf_format nowMs dateMs = rtf_format (- q) u
    /\ unit_seconds u * q <= (nowMs - dateMs) / 1000 < unit_seconds u * (q + 1)
    /\ match u with
       | second => 0 <= q <= 59
       | minute => 1 <= q <= 59
       | hour => 1 <= q <= 23
       | day => 1 <= q <= 29
       | month => 1 <= q <= 12
       | year => 1 <= q
       end.
Proof.
  rewrite (formatRelativeTime_natural rtf_format).
  unfold formatRelativeTime.
  set (d := (nowMs - dateMs) / 1000).
  assert (Hd : 0 <= d) by (apply Z.div_pos; lia).
  clearbody d.
  assert (Hdiv : forall k, 0 < k -> k * (d / k) <= d < k * (d / k + 1)).
  { intros k Hk. pose proof (Z.div_mod d k ltac:(lia)).
    pose proof (Z.mod_pos_bound d k Hk). lia. }
  destruct (Z.ltb_spec d 60) as [H1|H1].
  { exists d, second. cbn. repeat split; lia. }
  destruct (Z.ltb_spec d 3600) as [H2|H2].
  { exists (d / 60), minute. cbn [fst snd unit_seconds].
    pose proof (Hdiv 60 ltac:(lia)). repeat split; try reflexivity; lia. }
  destruct (Z.ltb_spec d 86400) as [H3|H3].
  { exists (d / 3600), hour. cbn [fst snd unit_seconds].
    pose proof (Hdiv 3600 ltac:(lia)). repeat split; try reflexivity; lia. }
  destruct (Z.ltb_spec d 2592000) as [H4|H4].
  { exists (d / 86400), day. cbn [fst snd unit_seconds].
    pose proof (Hdiv 86400 ltac:(lia)). repeat split; try reflexivity; lia. }
  destruct (Z.ltb_spec d 31536000) as [H5|H5].
  { exists (d / 2592000), month. cbn [fst snd unit_seconds].
    pose proof (Hdiv 2592000 ltac:(lia)). repeat split; try reflexivity; lia. }
  exists (d / 31536000), year. cbn [fst snd unit_seconds].
  pose proof (Hdiv 31536000 ltac:(lia)). repeat split; try reflexivity; lia.
Qed.

Lemma formatRelativeTime_past_witness :
  exists q u,
    formatRelativeTime pair 31200000000 0 = (- q, u)
    /\ formatRelativeTime pair 31200000000 0 = pair (- q) u
    /\ unit_seconds u * q <= (31200000000 - 0) / 1000 < unit_seconds u * (q + 1)
    /\ match u with
       | second => 0 <= q <= 59
       | minute => 1 <= q <= 59
       | hour => 1 <= q <= 23
       | day => 1 <= q <= 29
       | month => 1 <= q <= 12
       | year => 1 <= q
       end.
Proof. apply (formatRelativeTime_past pair 31200000000 0). lia. Defined.

(** Twelve months are reached: 361 days ago is "12 months", not a year. *)
Example twelve_months_ago :
  formatRelativeTime pair 31200000000 0 = (-12, month).
Proof. vm_compute. reflexivity. Qed.

(** X19. A date in the future, however far, is always counted in seconds:
    the formatter is handed the positive number of seconds and the unit
    [second]. *)
Theorem formatRelativeTime_future {Text : Type} (rtf_format : Z -> TimeUnit -> Text)
    (nowMs dateMs : Z) (Hfuture : nowMs < dateMs) :
  formatRelativeTime rtf_format nowMs dateMs
  = rtf_format (- ((nowMs - dateMs) / 1000)) second
  /\ 1 <= - ((nowMs - dateMs) / 1000)
  /\ 1000 * (- ((nowMs - dateMs) / 1000) - 1) < dateMs - nowMs
     <= 1000 * - ((nowMs - dateMs) / 1000).
Proof.
  unfold formatRelativeTime.
  set (d := (nowMs - dateMs) / 1000).
  assert (Hd : d < 0) by (apply Z.div_lt_upper_bound; lia).
  pose proof (Z.div_mod (nowMs - dateMs) 1000 ltac:(lia)) as Hdm.
  pose proof (Z.mod_pos_bound (nowMs - dateMs) 1000 ltac:(lia)) as Hm.
  fold d in Hdm.
  destruct (Z.ltb_spec d 60) as [H1|H1]; [|lia].
  repeat split; lia.
Qed.

Lemma formatRelativeTime_future_witness :
  formatRelativeTime pair 0 31536000000 = pair (- ((0 - 31536000000) / 1000)) second
  /\ 1 <= - ((0 - 31536000000) / 1000)
  /\ 1000 * (- ((0 - 31536000000) / 1000) - 1) < 31536000000 - 0
     <= 1000 * - ((0 - 31536000000) / 1000).
Proof. apply (formatRelativeTime_future pair 0 31536000000). lia. Defined.

(** ** WhatsApp links *)

Lemma strip_non_digits_all_digits (s : string) :
  Forall (fun c => is_digit c = true) (list_ascii_of_string (strip_non_digits s)).
Proof.
  induction s as [|c s IH]; cbn [strip_non_digits]; [constructor|].
  destruct (is_digit c) eqn:Hc; [|exact IH].
  cbn [list_ascii_of_string]. now constructor.
Qed.

Lemma strip_non_digits_fixes_digits (s : string) :
  Forall (fun c => is_digit c = true) (list_ascii_of_string s) ->
  strip_non_digits s = s.
Proof.
  induction s as [|c s IH]; cbn [strip_non_digits list_ascii_of_string];
    [reflexivity|].
  intros H. inversion H as [|? ? Hc Hs]; subst. rewrite Hc. f_equal. now apply IH.
Qed.

(** X20. The link [getUrl] builds is the mobile link exactly when
    [isMobileDevice] holds, and the web link otherwise, in particular on the
    server, where no navigator is defined; the phone number in it is the
    configured number with everything but its digits removed, and a number
    made of digits only is used as it is. *)
Theorem getUrl_device_and_phone (businessNumber : string)
    (encodeURIComponent : string -> string) (navigator : option string)
    (message : string) :
  let phone := strip_non_digits businessNumber in
  WHATSAPP_CONFIG.getUrl businessNumber encodeURIComponent navigator message
  = (if isMobileDevice navigator
     then "https://wa.me/" +:+ phone +:+ "?text=" +:+ encodeURIComponent message
     else "https://web.whatsapp.com/send?phone=" +:+ phone +:+ "&text="
            +:+ encodeURIComponent message)
  /\ isMobileDevice None = false
  /\ Forall (fun c => is_digit c = true) (list_ascii_of_string phone)
  /\ (Forall (fun c => is_digit c = true) (list_ascii_of_string businessNumber) ->
      phone = businessNumber).
Proof.
  intros phone. subst phone. split; [|split; [reflexivity|split]].
  - unfold WHATSAPP_CONFIG.getUrl, WHATSAPP_CONFIG.getMobileUrl,
      WHATSAPP_CONFIG.getWebUrl, isMobileDevice.
    destruct navigator as [ua|]; reflexivity.
  - apply strip_non_digits_all_digits.
  - apply strip_non_digits_fixes_digits.
Qed.

Example whatsapp_links :
  WHATSAPP_CONFIG.getUrl "+52 (55) 1234-5678" (fun m => m)
    (Some "Mozilla/5.0 (Linux; ANDROID 14)") "hola"
  = "https://wa.me/525512345678?text=hola"
  /\ WHATSAPP_CONFIG.getUrl "+52 (55) 1234-5678" (fun m => m)
       (Some "Mozilla/5.0 (X11; Linux x86_64)") "hola"
     = "https://web.whatsapp.com/send?phone=525512345678&text=hola".
Proof. vm_compute. split; reflexivity. Qed.

(** ** The home page over the cache *)

Section StoreDown.
Context {World Value Exn : Type}.
Variable redis : RedisClient World Value Exn.
Variable selectAltares : Fetcher World Value Exn.
Variable e : Exn.
Hypothesis store_down : forall w, exists w', selectAltares w = (Throw e, w').

(** With the data store down, [getCached] serves the cached value when the
    lookup yields one and fails with the store's error otherwise. *)
Lemma getCached_store_down (key : string) (ttl : option Z) (w : World) :
  match redis_get redis key w with
  | (Ok (NonNull v), w1) =>
      ClientA.getCached redis key selectAltares ttl w = (Ok (NonNull v), w1, [EvGet key])
      /\ ClientB.getCached redis key selectAltares ttl w
         = (Ok (NonNull v), w1, [EvGet key])
  | _ =>
      exists w1 t,
        ClientA.getCached redis key selectAltares ttl w = (Throw e, w1, t)
        /\ ClientB.getCached redis key selectAltares ttl w = (Throw e, w1, t)
  end.
Proof.
  destruct (redis_get redis key w) as [[[|v]|e0] w1] eqn:Hget.
  - destruct (store_down w1) as [w2 Hf]. destruct (store_down w2) as [w3 Hf2].
    rewrite (getCachedA_miss_fetch_throws _ _ _ _ _ _ _ _ Hget Hf).
    rewrite (getCachedB_miss_fetch_throws _ _ _ _ _ _ _ _ Hget Hf).
    rewrite Hf2. eauto.
  - split; [now apply getCachedA_hit|now apply getCachedB_hit].
  - destruct (store_down w1) as [w2 Hf].
    rewrite (getCachedA_get_throws _ _ selectAltares ttl _ _ _ Hget).
    rewrite (getCachedB_get_throws _ _ selectAltares ttl _ _ _ Hget).
    rewrite Hf. eauto.
Qed.

(** X21. With the data store down, the lookup of [altares:all] decides what
    the home page shows. When it yields a cached catalog, both pages show it
    after that one lookup and no fetch. In every other case (null, or Redis
    failing) the page that catches shows an empty catalog with the store's
    error message (or "Error desconocido" for a thrown value that is no
    Error), and the page that does not catch fails with the store's error. *)
Theorem home_page_with_store_down (instanceofError : Exn -> option string)
    (emptyArray : Value) (w : World) :
  let message := match instanceofError e with
                 | Some m => m
                 | None => "Error desconocido"
                 end in
  let shows := fun (getCached : string -> Fetcher World Value Exn -> option Z ->
                                M World Value Exn (nullable Value)) =>
    let guarded := HomeGuarded getCached selectAltares instanceofError emptyArray w in
    let plain := HomePlain getCached selectAltares w in
    match redis_get redis CACHE_KEYS.ALTARES_ALL w with
    | (Ok (NonNull v), w1) =>
        guarded = (Ok {| home_altares := NonNull v; home_error := None |}, w1,
                   [EvGet CACHE_KEYS.ALTARES_ALL])
        /\ plain = guarded
    | _ =>
        guarded.1.1 = Ok {| home_altares := NonNull emptyArray;
                            home_error := Some message |}
        /\ plain.1.1 = Throw e
    end in
  shows (ClientA.getCached redis) /\ shows (ClientB.getCached redis).
Proof.
  intros message shows. subst shows message. cbv beta zeta.
  unfold HomeGuarded, HomePlain, getAltares.
  pose proof (getCached_store_down CACHE_KEYS.ALTARES_ALL (Some CACHE_TTL.CATALOG) w)
    as Hrun.
  destruct (redis_get redis CACHE_KEYS.ALTARES_ALL w) as [[[|v]|e0] w1].
  - destruct Hrun as (w2 & t & Ha & Hb). split.
    + erewrite try_catch_throw by (erewrite bind_throw by exact Ha; reflexivity).
      erewrite bind_throw by exact Ha. now split.
    + erewrite try_catch_throw by (erewrite bind_throw by exact Hb; reflexivity).
      erewrite bind_throw by exact Hb. now split.
  - destruct Hrun as [Ha Hb]. split.
    + erewrite try_catch_ok by (erewrite bind_ok by exact Ha; reflexivity).
      erewrite bind_ok by exact Ha. now split.
    + erewrite try_catch_ok by (erewrite bind_ok by exact Hb; reflexivity).
      erewrite bind_ok by exact Hb. now split.
  - destruct Hrun as (w2 & t & Ha & Hb). split.
    + erewrite try_catch_throw by (erewrite bind_throw by exact Ha; reflexivity).
      erewrite bind_throw by exact Ha. now split.
    + erewrite try_catch_throw by (erewrite bind_throw by exact Hb; reflexivity).
      erewrite bind_throw by exact Hb. now split.
Qed.

End StoreDown.

Lemma home_page_with_store_down_witness :
  let w : Mem string :=
    {| store := {[ CACHE_KEYS.ALTARES_ALL := NonNull "[altar]" ]}; fetched := 0 |} in
  let shows := fun (getCached : string -> Fetcher (Mem string) string string ->
                                option Z -> M (Mem string) string string (nullable string)) =>
    let guarded := HomeGuarded getCached failing_fetcher Some "[]" w in
    let plain := HomePlain getCached failing_fetcher w in
    guarded = (Ok {| home_altares := NonNull "[altar]"; home_error := None |}, w,
               [EvGet CACHE_KEYS.ALTARES_ALL])
    /\ plain = guarded in
  shows (ClientA.getCached mem_redis) /\ shows (ClientB.getCached mem_redis).
Proof.
  intros w.
  apply (home_page_with_store_down mem_redis failing_fetcher "Failed to fetch altares"
           (fun w0 => ex_intro _ _ eq_refl) Some "[]" w).
Defined.

(** With the data store down and nothing cached, the page that catches shows
    the empty catalog and the message; the other page fails. *)
Example home_page_store_down_cache_empty :
  let w : Mem string := {| store := ∅; fetched := 0 |} in
  (HomeGuarded (ClientA.getCached mem_redis) failing_fetcher Some "[]" w).1.1
  = Ok {| home_altares := NonNull "[]";
          home_error := Some "Failed to fetch altares" |}
  /\ (HomePlain (ClientA.getCached mem_redis) failing_fetcher w).1.1
     = Throw "Failed to fetch altares".
Proof. vm_compute. split; reflexivity. Qed.

(** A failure whose message is empty leaves the notice off, although the
    catalog shown is the empty one. *)
Example empty_message_hides_notice :
  let view := {| home_altares := NonNull "[]"; home_error := Some "" |} in
  (HomeGuarded (ClientA.getCached down_redis)
     (fun w : Mem string => (Throw "", w)) Some "[]"
     {| store := ∅; fetched := 0 |}).1.1 = Ok view
  /\ notice_shown view = false.
Proof. vm_compute. split; reflexivity. Qed.
